(** * DocSnap: crawl engine and book assembler of [docsnap.py]

    A shallow embedding of the crawl loop ([crawl_docs]), the link
    normalizer ([normalize_link], [is_same_domain]), the content extractor
    ([extract_main_html], [clean_html_fragment]) and the book assembler
    ([build_book_html]), followed by the properties established about them.

    Python [str] values are modelled as [string] (8-bit characters read as
    code points 0..255); the [visited] set is a [gset string]; the
    [OrderedDict] of pages is an association list in insertion order.
    The libraries the script calls (urllib, requests, BeautifulSoup) are
    parameters of the development. *)

From Stdlib Require Import Ascii String ZArith Lia.
From stdpp Require Import gmap strings list pretty.

Local Open Scope string_scope.

(** ** Python string operations used by the script *)

Module Py.

Definition ord (c : ascii) : N := N_of_ascii c.

Definition is_upper (c : ascii) : bool := ((65 <=? ord c) && (ord c <=? 90))%N.
Definition is_lower (c : ascii) : bool := ((97 <=? ord c) && (ord c <=? 122))%N.
Definition is_digit (c : ascii) : bool := ((48 <=? ord c) && (ord c <=? 57))%N.

(** [str.isspace] on code points below 256. *)
Definition is_space (c : ascii) : bool :=
  (((9 <=? ord c) && (ord c <=? 13)) || ((28 <=? ord c) && (ord c <=? 32))
   || (ord c =? 133) || (ord c =? 160))%N.

Definition lower_char (c : ascii) : ascii :=
  if is_upper c then ascii_of_N (ord c + 32) else c.

Fixpoint lower (s : string) : string :=
  match s with
  | "" => ""
  | String c r => String (lower_char c) (lower r)
  end.

(** Truthiness of a [str]: the empty string is falsy. *)
Definition truthy (s : string) : bool :=
  match s with "" => false | _ => true end.

(** Truthiness of an optional [str] ([None] is falsy). *)
Definition truthy_opt (o : option string) : bool :=
  match o with Some s => truthy s | None => false end.

(** [s.startswith(p)] *)
Definition startswith (s p : string) : bool := String.prefix p s.

(** [s.endswith(p)] *)
Definition endswith (s p : string) : bool :=
  String.prefix (String.rev p) (String.rev s).

(** [s.split('#')[0]] *)
Fixpoint before_hash (s : string) : string :=
  match s with
  | "" => ""
  | String c r => if Ascii.eqb c "#" then "" else String c (before_hash r)
  end.

Fixpoint lstrip (s : string) : string :=
  match s with
  | "" => ""
  | String c r => if is_space c then lstrip r else s
  end.
Definition rstrip (s : string) : string := String.rev (lstrip (String.rev s)).
(** [s.strip()] *)
Definition strip (s : string) : string := rstrip (lstrip s).

(** [sub in s] *)
Fixpoint contains (sub s : string) : bool :=
  String.prefix sub s ||
  match s with
  | "" => false
  | String _ r => contains sub r
  end.

(** [s[:n]] *)
Definition take (n : nat) (s : string) : string := substring 0 n s.

(** [s.split()]: maximal runs of non-whitespace characters. *)
Fixpoint tokens_go (cur : string) (s : string) : list string :=
  match s with
  | "" => if truthy cur then [String.rev cur] else []
  | String c r =>
      if is_space c
      then (if truthy cur then [String.rev cur] else []) ++ tokens_go "" r
      else tokens_go (String c cur) r
  end.
Definition tokens (s : string) : list string := tokens_go "" s.

(** The double quote and the line feed, spelled by code. *)
Definition dq : string := String (ascii_of_nat 34) "".
Definition nl : string := String (ascii_of_nat 10) "".

(** Python's [x or y] on optional values whose present values are all
    truthy (BeautifulSoup's [Tag.__bool__] always answers [True]). *)
Definition or_else {A} (x y : option A) : option A :=
  match x with Some _ => x | None => y end.

End Py.

(** ** The regular expressions of the script *)

Module Re.

(** Membership in the class [[a-zA-Z0-9_-]]. *)
Definition safe_char (c : ascii) : bool :=
  Py.is_lower c || Py.is_upper c || Py.is_digit c
  || Ascii.eqb c "_" || Ascii.eqb c "-".

(** [re.sub(r'[^a-zA-Z0-9_-]+', '-', s)]: every maximal run of characters
    outside the class becomes one ["-"]; [in_run] tells whether the
    previous character already belonged to such a run. *)
Fixpoint sub_unsafe_go (in_run : bool) (s : string) : string :=
  match s with
  | "" => ""
  | String c r =>
      if safe_char c then String c (sub_unsafe_go false r)
      else if in_run then sub_unsafe_go true r
      else String "-" (sub_unsafe_go true r)
  end.
Definition sub_unsafe (s : string) : string := sub_unsafe_go false s.

(** [re.compile("^h[1-6]$")] and [re.compile("^h[1-3]$")] searched in a
    tag name; [$] also matches before one final line feed. *)
Definition h_upto (hi : N) (name : string) : bool :=
  match name with
  | String h (String d r) =>
      Ascii.eqb h "h" && ((49 <=? Py.ord d) && (Py.ord d <=? hi))%N
      && (String.eqb r "" || String.eqb r Py.nl)
  | _ => false
  end.
Definition h1_6 : string -> bool := h_upto 54.
Definition h1_3 : string -> bool := h_upto 51.

Definition media_exts : list string :=
  ["jpg"; "jpeg"; "png"; "gif"; "svg"; "pdf"; "zip"; "tar"; "gz"; "mp4"; "webm"].

(** [re.search(r'\.(jpg|...|webm)$', href, re.I)] *)
Definition media_search (href : string) : bool :=
  let l := Py.lower href in
  existsb (fun e => Py.endswith l ("." +:+ e) || Py.endswith l ("." +:+ e +:+ Py.nl))
          media_exts.

End Re.

(** ** The parsed document (BeautifulSoup's tree) *)

Module Dom.

(** A parsed page. [NavigableString] is text that [get_text] reports;
    [Comment] stands for the string kinds it skips.  The [BeautifulSoup]
    object itself is a [Tag] named ["[document]"]. *)
Local Unset Elimination Schemes.
Inductive node : Type :=
| NavigableString (s : string)
| Comment (s : string)
| Tag (name : string) (attrs : list (string * string)) (contents : list node).
Local Set Elimination Schemes.

(** A position inside a tree: child indices from the root.  Python hands
    out references into the one mutable tree; a path plays that role. *)
Definition path : Type := list nat.

Definition tag_attrs (n : node) : list (string * string) :=
  match n with Tag _ attrs _ => attrs | _ => [] end.

(** [tag.get(key)] *)
Fixpoint attr_get (key : string) (attrs : list (string * string)) : option string :=
  match attrs with
  | [] => None
  | (k, v) :: r => if String.eqb k key then Some v else attr_get key r
  end.

(** [tag[key] = v] on the attribute dictionary. *)
Fixpoint attr_set (key v : string) (attrs : list (string * string))
  : list (string * string) :=
  match attrs with
  | [] => [(key, v)]
  | (k, w) :: r =>
      if String.eqb k key then (k, v) :: r else (k, w) :: attr_set key v r
  end.

Definition get (key : string) (n : node) : option string :=
  attr_get key (tag_attrs n).

(** Descendants in document order, each with its path below [n]. *)
Definition walk_list (w : node -> list (path * node))
  : nat -> list node -> list (path * node) :=
  fix go k l :=
    match l with
    | [] => []
    | c :: r =>
        ([k], c) :: map (fun pd => (k :: fst pd, snd pd)) (w c) ++ go (S k) r
    end.

Fixpoint walk (n : node) : list (path * node) :=
  match n with
  | Tag _ _ cs => walk_list walk 0 cs
  | _ => []
  end.

Definition descendants (n : node) : list node := map snd (walk n).

(** [n.find_all(...)] for a predicate on tags, and [n.find(...)]. *)
Definition find_all (p : node -> bool) (n : node) : list node :=
  List.filter p (descendants n).
Definition find (p : node -> bool) (n : node) : option node :=
  head (find_all p n).

(** The same search, answering with the position of the first match. *)
Definition find_path (p : node -> bool) (n : node) : option path :=
  fst <$> head (List.filter (fun pd => p (snd pd)) (walk n)).

Fixpoint subtree (p : path) (n : node) : option node :=
  match p with
  | [] => Some n
  | k :: p' =>
      match n with
      | Tag _ _ cs => match cs !! k with Some c => subtree p' c | None => None end
      | _ => None
      end
  end.

(** In-place change of the subtree at a position. *)
Fixpoint update_at (p : path) (f : node -> node) (n : node) : node :=
  match p with
  | [] => f n
  | k :: p' =>
      match n with
      | Tag name attrs cs => Tag name attrs (alter (update_at p' f) k cs)
      | _ => n
      end
  end.

(** [tag.get_text()] and [tag.get_text(strip=True)]: the text strings
    below the tag, each stripped when asked (empty ones then vanish),
    joined with the empty separator. *)
Fixpoint get_text (strip : bool) (n : node) : string :=
  match n with
  | NavigableString s => if strip then Py.strip s else s
  | Comment _ => ""
  | Tag _ _ cs => String.concat "" (map (get_text strip) cs)
  end.

Definition named (nm : string) (n : node) : bool :=
  match n with Tag name _ _ => String.eqb name nm | _ => false end.

Definition name_matches (re : string -> bool) (n : node) : bool :=
  match n with Tag name _ _ => re name | _ => false end.

(** CSS selectors of the script, on the lower-case tag and attribute
    names that [html.parser] delivers.  [[key=v]] matches the value
    against the pattern [^v$], whose [$] also stands before one final line
    feed; [[key*=sub]] asks for [sub] anywhere in the value. *)
Definition attr_is (key v : string) (n : node) : bool :=
  match get key n with
  | Some w => String.eqb w v || String.eqb w (v +:+ Py.nl)
  | None => false
  end.
Definition attr_contains (key sub : string) (n : node) : bool :=
  match get key n with Some w => Py.contains sub w | None => false end.
Definition has_class (cls : string) (n : node) : bool :=
  match n with
  | Tag _ _ _ =>
      match get "class" n with
      | Some w => bool_decide (cls ∈ Py.tokens w)
      | None => false
      end
  | _ => false
  end.

(** [tag.decompose()] for every descendant selected by [p]. *)
Fixpoint decompose_all (p : node -> bool) (n : node) : node :=
  match n with
  | Tag name attrs cs =>
      Tag name attrs
          (omap (fun c => if p c then None else Some (decompose_all p c)) cs)
  | _ => n
  end.

End Dom.
Import Dom.

(** ** Content extractor *)

Definition selectors : list (node -> bool) :=
  [ named "main";
    named "article";
    (fun n => named "div" n && attr_is "role" "main" n);
    (fun n => named "div" n && attr_contains "class" "content" n);
    (fun n => named "div" n && attr_contains "class" "main-content" n);
    (fun n => named "div" n && attr_contains "id" "content" n) ].

(** The [for sel, _ in selectors] loop: the first selected tag whose
    stripped text is non-empty. *)
Fixpoint first_candidate (soup : node) (sels : list (node -> bool)) : option path :=
  match sels with
  | [] => None
  | sel :: rest =>
      match find_path sel soup with
      | Some p =>
          match subtree p soup with
          | Some tag =>
              if Py.truthy (get_text true tag) then Some p
              else first_candidate soup rest
          | None => first_candidate soup rest
          end
      | None => first_candidate soup rest
      end
  end.

(** [extract_main_html(soup)]; the result is a reference into [soup], or
    Python's [None]. *)
Definition extract_main_html (soup : node) : option path :=
  match first_candidate soup selectors with
  | Some p => Some p
  | None => Py.or_else (find_path (named "body") soup) (Some [])
  end.

Definition junk_tags : list string :=
  ["script"; "style"; "nav"; "form"; "footer"; "header"; "noscript"].

Definition junk_classes : list string :=
  ["edit-on-github"; "sidebar"; "toc"; "breadcrumbs"; "page-nav"; "nav";
   "site-footer"; "site-header"].

Definition is_junk_tag (n : node) : bool :=
  match n with
  | Tag name _ _ => bool_decide (name ∈ junk_tags)
  | _ => false
  end.

(** [clean_html_fragment(fragment)]; the final loop over comments has an
    empty body and is left out. *)
Definition clean_html_fragment (fragment : node) : node :=
  fold_left (fun f cls => decompose_all (has_class cls) f) junk_classes
            (decompose_all is_junk_tag fragment).

(** ** The libraries the script calls *)

(** What [SESSION.get(url, timeout=20)] does: raise, or answer. *)
Inductive response : Type :=
| RequestException
| Response (status_code : Z) (text : string).

(** [urlparse] answers the scheme and the netloc of a URL, [urljoin] the
    resolved reference; [None] is a raised [ValueError].  [str] is Python's
    [str(tag)].  [sleep_ok] tells whether [time.sleep(delay)] returns for
    the delay of the run: it raises [ValueError] for a negative delay and
    for one that is not a number. *)
Class Library : Type := {
  urlparse : string -> option (string * string);
  urljoin : string -> string -> option string;
  SESSION_get : string -> response;
  BeautifulSoup : string -> node;
  str : node -> string;
  sleep_ok : bool
}.

(** A value, or an exception that leaves the function. *)
Inductive result (A : Type) : Type :=
| Ok (a : A)
| Raises.
Arguments Ok {A} a.
Arguments Raises {A}.

(** [time.sleep(delay)] after a computation that may have raised. *)
Definition after_sleep `{Library} {A} (r : result A) : result A :=
  match r with
  | Ok a => if sleep_ok then Ok a else Raises
  | Raises => Raises
  end.

(** ** Link normalizer *)

Definition is_same_domain `{Library} (start_netloc link : string) : bool :=
  match urlparse link with
  | Some (_, netloc) =>
      if negb (Py.truthy netloc) then true else String.eqb netloc start_netloc
  | None => false
  end.

Definition normalize_link `{Library} (base href : string) : result (option string) :=
  if negb (Py.truthy href) then Ok None
  else
    let href := Py.before_hash href in
    let href := Py.strip href in
    if Py.startswith href "mailto:" || Py.startswith href "tel:" then Ok None
    else match urljoin base href with
         | Some u => Ok (Some u)
         | None => Raises
         end.

(** ** Crawl engine *)

(** The local variables of [crawl_docs] that the loop changes.  [requests]
    is the log of the [SESSION.get] calls made so far, oldest first. *)
Record crawl_state : Type := CrawlState {
  to_visit : list string;
  visited : gset string;
  pages : list (string * (string * string));
  requests : list string
}.

(** [pages[url] = v] on an [OrderedDict]: a known key keeps its place. *)
Fixpoint od_set {V} (k : string) (v : V) (d : list (string * V)) : list (string * V) :=
  match d with
  | [] => [(k, v)]
  | (k', v') :: r =>
      if String.eqb k' k then (k', v) :: r else (k', v') :: od_set k v r
  end.

Definition keys {V} (d : list (string * V)) : list string := map fst d.

Definition visited_add (url : string) (st : crawl_state) : crawl_state :=
  CrawlState (to_visit st) ({[url]} ∪ visited st) (pages st) (requests st).

Definition to_visit_append (href : string) (st : crawl_state) : crawl_state :=
  CrawlState (to_visit st ++ [href]) (visited st) (pages st) (requests st).

Definition pages_set (url : string) (v : string * string) (st : crawl_state)
  : crawl_state :=
  CrawlState (to_visit st) (visited st) (od_set url v (pages st)) (requests st).

Definition log_request (url : string) (st : crawl_state) : crawl_state :=
  CrawlState (to_visit st) (visited st) (pages st) (requests st ++ [url]).

(** [a['href'] for a in soup.find_all("a", href=True)] *)
Definition anchors (soup : node) : list string :=
  omap (get "href") (find_all (named "a") soup).

Section Crawl.
Context `{Library}.
Variables (base_netloc scheme_and_netloc : string).
Variables (max_pages : Z) (allowed_path_prefix : option string).

(** One turn of [for a in soup.find_all("a", href=True)]. *)
Definition consider_link (url : string) (st : crawl_state) (raw : string)
  : result crawl_state :=
  match normalize_link url raw with
  | Raises => Raises
  | Ok None => Ok st
  | Ok (Some href) =>
      if negb (Py.truthy href) then Ok st
      else if negb (is_same_domain base_netloc href) then Ok st
      else if Re.media_search href then Ok st
      else if negb (bool_decide (href ∈ visited st))
              && negb (bool_decide (href ∈ to_visit st))
              && Py.startswith href scheme_and_netloc
           then Ok (to_visit_append href st)
           else Ok st
  end.

Fixpoint discover_links (url : string) (hrefs : list string) (st : crawl_state)
  : result crawl_state :=
  match hrefs with
  | [] => Ok st
  | raw :: rest =>
      match consider_link url st raw with
      | Ok st' => discover_links url rest st'
      | Raises => Raises
      end
  end.

(** What happens to a page that answered 200: parse, extract, clean in
    place, record, mark, discover, sleep. *)
Definition process_page (url text : string) (st : crawl_state)
  : result crawl_state :=
  let soup := BeautifulSoup text in
  let title :=
    match find (named "title") soup with
    | Some title_tag => get_text true title_tag
    | None => url
    end in
  match extract_main_html soup with
  | None => Ok (visited_add url st)
  | Some main =>
      let soup := update_at main clean_html_fragment soup in
      let content :=
        match subtree main soup with Some m => str m | None => "" end in
      after_sleep
        (discover_links url (anchors soup)
                        (visited_add url (pages_set url (title, content) st)))
  end.

(** The body of the [while] loop. *)
Definition crawl_body (st : crawl_state) : result crawl_state :=
  match to_visit st with
  | [] => Raises
  | url :: rest =>
      let st := CrawlState rest (visited st) (pages st) (requests st) in
      if bool_decide (url ∈ visited st) then Ok st
      else if negb (is_same_domain base_netloc url) then Ok (visited_add url st)
      else if Py.truthy_opt allowed_path_prefix
              && negb (Py.startswith url (default "" allowed_path_prefix))
           then Ok (visited_add url st)
      else
        let st := log_request url st in
        match SESSION_get url with
        | RequestException => Ok (visited_add url st)
        | Response status_code text =>
            if negb (status_code =? 200)%Z then Ok (visited_add url st)
            else process_page url text st
        end
  end.

(** [to_visit and len(visited) < max_pages] *)
Definition loop_cond (st : crawl_state) : bool :=
  match to_visit st with [] => false | _ => true end
  && (Z.of_nat (size (visited st)) <? max_pages)%Z.

(** The [while] loop; [None] when the fuel ends before the loop does. *)
Fixpoint crawl_loop (fuel : nat) (st : crawl_state)
  : option (result crawl_state) :=
  if loop_cond st then
    match fuel with
    | O => None
    | S fuel' =>
        match crawl_body st with
        | Ok st' => crawl_loop fuel' st'
        | Raises => Some Raises
        end
    end
  else Some (Ok st).

End Crawl.

Definition crawl_init (start_url : string) : crawl_state :=
  CrawlState [start_url] ∅ [] [].

(** [crawl_docs(start_url, max_pages, delay, allowed_path_prefix)], run to
    the end of its loop; the progress bar is left out.
    Every turn of the loop that reaches a new URL enlarges [visited], so
    [max_pages] turns are enough fuel ([crawl_run_returns]). *)
Definition crawl_run `{Library} (start_url : string) (max_pages : Z)
    (allowed_path_prefix : option string) : option (result crawl_state) :=
  match urlparse start_url with
  | None => Some Raises
  | Some (scheme, netloc) =>
      crawl_loop netloc (scheme +:+ "://" +:+ netloc) max_pages allowed_path_prefix
                 (Z.to_nat max_pages) (crawl_init start_url)
  end.

Definition crawl_docs `{Library} (start_url : string) (max_pages : Z)
    (allowed_path_prefix : option string)
  : option (result (list (string * (string * string)))) :=
  match crawl_run start_url max_pages allowed_path_prefix with
  | Some (Ok st) => Some (Ok (pages st))
  | Some Raises => Some Raises
  | None => None
  end.

(** ** Book assembler *)

(** [re.sub(r'[^a-zA-Z0-9_-]+', '-', h.get_text())[:60]] *)
Definition safe_id (text : string) : string := Py.take 60 (Re.sub_unsafe text).

(** [f"p{i}-{safe_id}"] for the heading [h] of page [i]. *)
Definition synth_id (i : nat) (h : node) : string :=
  "p" +:+ pretty i +:+ "-" +:+ safe_id (get_text false h).

(** [not h.get('id')] for a tag that [find_all(re.compile("^h[1-6]$"))]
    selects. *)
Definition is_heading (n : node) : bool := name_matches Re.h1_6 n.
Definition lacks_id (n : node) : bool := negb (Py.truthy_opt (get "id" n)).

(** The loop "Ensure headings have ids", as the change it makes to a tag
    and everything below it. *)
Fixpoint ensure_id (i : nat) (n : node) : node :=
  match n with
  | Tag name attrs cs =>
      Tag name
          (if is_heading n && lacks_id n
           then attr_set "id" (synth_id i n) attrs else attrs)
          (map (ensure_id i) cs)
  | _ => n
  end.

(** [find_all] looks below the soup object, never at it. *)
Definition ensure_heading_ids (i : nat) (soup : node) : node :=
  match soup with
  | Tag name attrs cs => Tag name attrs (map (ensure_id i) cs)
  | _ => soup
  end.

(** The heading elements of a parsed fragment, in document order. *)
Definition headings (soup : node) : list node := find_all is_heading soup.

(** What one turn of the page loop computes. *)
Record chapter : Type := Chapter {
  chapter_id : string;
  chapter_title_text : string;
  chapter_url : string;
  chapter_soup : node
}.

Definition build_chapter `{Library} (i : nat) (page : string * (string * string))
    : chapter :=
  let '(url, (title, html_content)) := page in
  let soup := ensure_heading_ids i (BeautifulSoup html_content) in
  let chapter_title_text :=
    match find (name_matches Re.h1_3) soup with
    | Some chapter_title => get_text true chapter_title
    | None => title
    end in
  Chapter ("chapter-" +:+ pretty i) chapter_title_text url soup.

(** [for i, (url, (title, html_content)) in enumerate(pages.items(), start=1)] *)
Fixpoint chapters_from `{Library} (i : nat) (pages : list (string * (string * string)))
    : list chapter :=
  match pages with
  | [] => []
  | page :: rest => build_chapter i page :: chapters_from (S i) rest
  end.

Definition chapters `{Library} (pages : list (string * (string * string)))
    : list chapter := chapters_from 1 pages.

Definition toc_entries `{Library} (pages : list (string * (string * string)))
    : list (string * string) :=
  map (fun c => (chapter_title_text c, chapter_id c)) (chapters pages).

Definition chapter_html `{Library} (c : chapter) : string :=
  "<section class=" +:+ Py.dq +:+ "chapter" +:+ Py.dq +:+ " id=" +:+ Py.dq
  +:+ chapter_id c +:+ Py.dq +:+ ">" +:+ Py.nl
  +:+ "<h1>" +:+ chapter_title_text c +:+ "</h1>" +:+ Py.nl
  +:+ "<div class=" +:+ Py.dq +:+ "source-url" +:+ Py.dq +:+ ">Source: <a href="
  +:+ Py.dq +:+ chapter_url c +:+ Py.dq +:+ ">" +:+ chapter_url c +:+ "</a></div>"
  +:+ Py.nl +:+ str (chapter_soup c) +:+ "</section>" +:+ Py.nl
  +:+ "<div style=" +:+ Py.dq +:+ "page-break-after: always;" +:+ Py.dq
  +:+ "></div>".

Definition chapters_html `{Library} (pages : list (string * (string * string)))
    : list string := map chapter_html (chapters pages).

Definition toc_line (entry : string * string) : string :=
  "<li><a href=" +:+ Py.dq +:+ "#" +:+ snd entry +:+ Py.dq +:+ ">"
  +:+ fst entry +:+ "</a></li>" +:+ Py.nl.

Definition toc_html `{Library} (pages : list (string * (string * string))) : string :=
  "<div class='toc'><h2>Index / Table of Contents</h2><ul>"
  +:+ String.concat "" (map toc_line (toc_entries pages))
  +:+ "</ul></div><div style='page-break-after: always;'></div>".

Definition css : string :=
  String.concat (Py.nl +:+ "    ")
    [ "";
      "body { font-family: " +:+ Py.dq +:+ "DejaVu Sans" +:+ Py.dq +:+ ", "
        +:+ Py.dq +:+ "Arial" +:+ Py.dq
        +:+ ", sans-serif; margin: 2cm; font-size: 12pt; color: #222; }";
      "h1 { font-size: 20pt; margin-top: 0.5em; margin-bottom: 0.3em; }";
      "h2 { font-size: 16pt; margin-top: 0.6em; }";
      ".title-page { text-align: center; margin-top: 6cm; }";
      ".title-page h1 { font-size: 36pt; margin-bottom: 0.2em; }";
      ".toc { margin-top: 2cm; }";
      ".toc ul { list-style: none; padding-left: 0; }";
      ".toc a { text-decoration: none; color: #1a0dab; }";
      ".chapter { margin-top: 1em; }";
      ".source-url { font-size: 9pt; color: #555; margin-bottom: 0.5em; }";
      "pre { white-space: pre-wrap; word-wrap: break-word; background: #f7f7f7; padding: 0.5em; border-radius: 4px; }";
      "code { font-family: monospace; }";
      ".idx { font-size: 11pt; }";
      "" ].

(** [build_book_html(pages, book_title, author)]; [now] is what
    [time.strftime('%Y-%m-%d %H:%M:%S')] answers. *)
Definition build_book_html `{Library} (pages : list (string * (string * string)))
    (book_title : string) (author : option string) (now : string) : string :=
  let title_html :=
    "<div class='title-page'><h1>" +:+ book_title +:+ "</h1>"
    +:+ (if Py.truthy_opt author
         then "<div class='author'>By " +:+ default "" author +:+ "</div>"
         else "")
    +:+ "<div class='meta'>Generated: " +:+ now
    +:+ "</div></div><div style='page-break-after: always;'></div>" in
  let body_html := String.concat Py.nl (chapters_html pages) in
  "<!doctype html><html><head><meta charset='utf-8'><title>" +:+ book_title
  +:+ "</title><style>" +:+ css +:+ "</style></head><body>" +:+ title_html
  +:+ toc_html pages +:+ body_html +:+ "</body></html>".

(** ** Command line *)

(** What is recorded for a page that answered 200 with markup [text]:
    its title (the URL when there is no title element) and the printed
    form of its cleaned main content; [None] when the extractor answers
    [None]. *)
Definition page_record `{Library} (url text : string) : option (string * string) :=
  let soup := BeautifulSoup text in
  let title :=
    match find (named "title") soup with
    | Some title_tag => get_text true title_tag
    | None => url
    end in
  match extract_main_html soup with
  | None => None
  | Some main =>
      let soup := update_at main clean_html_fragment soup in
      Some (title, match subtree main soup with Some m => str m | None => "" end)
  end.

(** The arguments [main] reads after [parse_args]; [--delay] only feeds
    the sleeps, whose outcome is [sleep_ok]. *)
Record cli_args : Type := CliArgs {
  arg_start_url : string;
  arg_output : string;
  arg_max_pages : Z;
  arg_no_crawl : bool;
  arg_urls_file : option string;
  arg_book_title : string;
  arg_author : option string;
  arg_allowed_prefix : option string
}.

(** How [main] ends: [sys.exit(code)], an exception that nothing catches,
    or the call [save_html_to_pdf(html_str, out, base_url)]. *)
Inductive main_outcome : Type :=
| Exit (code : Z)
| Uncaught
| SavePdf (html_str out base_url : string).

(** [[u.strip() for u in f if u.strip()]] over the lines of the file. *)
Definition read_urls (lines : list string) : list string :=
  List.filter Py.truthy (map Py.strip lines).

(** One turn of [for u in urls] in no-crawl mode.  Everything happens
    inside a [try]: a failed request, and the [AttributeError] of cleaning
    [None], leave [pages] as it was; so does a [time.sleep] that raises,
    which comes after the page was recorded. *)
Definition fetch_listed_page `{Library} (pages : list (string * (string * string)))
    (u : string) : list (string * (string * string)) :=
  match SESSION_get u with
  | RequestException => pages
  | Response status_code text =>
      if negb (status_code =? 200)%Z then pages
      else match page_record u text with
           | Some v => od_set u v pages
           | None => pages
           end
  end.

Definition fetch_listed `{Library} (urls : list string)
    : list (string * (string * string)) :=
  fold_left fetch_listed_page urls [].

(** The pages [main] collects, or the way it ends before having any.
    [urls_lines] are the lines of [args.urls_file], [None] when opening it
    raises. *)
Definition collect_pages `{Library} (args : cli_args)
    (urls_lines : option (list string))
    : main_outcome + list (string * (string * string)) :=
  if arg_no_crawl args then
    if negb (Py.truthy_opt (arg_urls_file args)) then inl (Exit 1)
    else match urls_lines with
         | None => inl Uncaught
         | Some lines => inr (fetch_listed (read_urls lines))
         end
  else
    match crawl_docs (arg_start_url args) (arg_max_pages args)
                     (arg_allowed_prefix args) with
    | Some (Ok pgs) => inr pgs
    | _ => inl Uncaught
    end.

(** [main()], after the arguments are parsed.  [os.path.abspath] is left
    to the caller of the outcome. *)
Definition main `{Library} (args : cli_args) (urls_lines : option (list string))
    (now : string) : main_outcome :=
  match collect_pages args urls_lines with
  | inl outcome => outcome
  | inr [] => Exit 1
  | inr pages =>
      SavePdf (build_book_html pages (arg_book_title args) (arg_author args) now)
              (arg_output args) (arg_start_url args)
  end.

(** ** The states a crawl passes through *)

(** The values of the loop variables each time the [while] condition is
    evaluated. *)
Inductive reachable `{Library} (start_url : string) (max_pages : Z)
    (allowed_path_prefix : option string) : crawl_state -> Prop :=
| reach_init : reachable start_url max_pages allowed_path_prefix (crawl_init start_url)
| reach_body scheme netloc st st' :
    reachable start_url max_pages allowed_path_prefix st ->
    urlparse start_url = Some (scheme, netloc) ->
    loop_cond max_pages st = true ->
    crawl_body netloc (scheme +:+ "://" +:+ netloc) allowed_path_prefix st = Ok st' ->
    reachable start_url max_pages allowed_path_prefix st'.

(** The frontier holds no URL twice and none that is already visited. *)
Definition frontier_inv (st : crawl_state) : Prop :=
  NoDup (to_visit st) /\ forall u, u ∈ to_visit st -> u ∉ visited st.

(** A fetch that succeeded: status 200. *)
Definition fetched_ok `{Library} (url : string) : bool :=
  match SESSION_get url with
  | Response status_code _ => (status_code =? 200)%Z
  | RequestException => false
  end.

(** The [id] attributes of the headings of every chapter, in document
    order ([None]: a heading without the attribute). *)
Definition heading_ids (cs : list chapter) : list (option string) :=
  flat_map (fun c => map (get "id") (headings (chapter_soup c))) cs.

(** ** What "runs collapsed to a single separator" means

    [collapsed s t]: [t] is [s] with every maximal run of characters
    outside [[a-zA-Z0-9_-]] replaced by one ["-"]. *)
Inductive collapsed : string -> string -> Prop :=
| collapsed_nil : collapsed "" ""
| collapsed_safe c s t :
    Re.safe_char c = true -> collapsed s t -> collapsed (String c s) (String c t)
| collapsed_run c s t :
    Re.safe_char c = false -> after_run s t -> collapsed (String c s) (String "-" t)
with after_run : string -> string -> Prop :=
| after_run_nil : after_run "" ""
| after_run_more c s t :
    Re.safe_char c = false -> after_run s t -> after_run (String c s) t
| after_run_safe c s t :
    Re.safe_char c = true -> collapsed s t -> after_run (String c s) (String c t).




Fixpoint fragment_free (url : string) : bool :=
  match url with
  | "" => true
  | String c r => negb (Ascii.eqb c "#") && fragment_free r
  end.

(** ** A small site, for the worked examples

    The library functions are given here on the handful of URLs and
    documents of a three-page site.  [render] writes a tree the way
    [str(tag)] does for trees free of markup characters in their text;
    [parse] reads back exactly the documents of [corpus]. *)

Module Demo.

Definition render_attr (kv : string * string) : string :=
  " " +:+ fst kv +:+ "=" +:+ Py.dq +:+ snd kv +:+ Py.dq.

Fixpoint render (n : node) : string :=
  match n with
  | NavigableString s => s
  | Comment s => "<!--" +:+ s +:+ "-->"
  | Tag name attrs cs =>
      let inner := String.concat "" (map render cs) in
      if String.eqb name "[document]" then inner
      else "<" +:+ name +:+ String.concat "" (map render_attr attrs) +:+ ">"
           +:+ inner +:+ "</" +:+ name +:+ ">"
  end.

Definition document (cs : list node) : node := Tag "[document]" [] cs.
Definition text (s : string) : node := NavigableString s.
Definition link (href label : string) : node :=
  Tag "a" [("href", href)] [text label].

Definition home_url : string := "https://docs.example.com/".
Definition guide_url : string := "https://docs.example.com/guide".
Definition missing_url : string := "https://docs.example.com/missing".

Definition home_main : node :=
  Tag "main" []
      [ Tag "h1" [] [text "Overview"];
        link "/guide" "Guide";
        link "http://docs.example.com/old" "Old";
        link "/missing#top" "Missing";
        link "mailto:docs@example.com" "Mail" ].

Definition home : node :=
  document
    [ Tag "html" []
          [ Tag "head" [] [Tag "title" [] [text "Home"]];
            Tag "body" [] [Tag "nav" [] [link "/nav" "Nav"]; home_main] ] ].

Definition guide_main : node :=
  Tag "article" []
      [ Tag "h2" [] [text "Overview"];
        Tag "h2" [("id", "setup")] [text "Set up"];
        link "/" "Home" ].

Definition guide : node :=
  document
    [ Tag "html" []
          [ Tag "head" [] [Tag "title" [] [text "Guide"]];
            Tag "body" [] [guide_main] ] ].

(** Fragments used to show identifier clashes. *)
Definition twice : node :=
  document [Tag "h2" [] [text "Overview"]; Tag "h2" [] [text "Overview"]].
Definition intro : node :=
  document [Tag "h2" [("id", "intro")] [text "Intro"]].

(** A fragment whose heading arrives with the id of a chapter. *)
Definition anchored : node :=
  document [Tag "h2" [("id", "chapter-2")] [text "Start"]].

(** A page whose main content is marked by a [role] value that ends in a
    line feed. *)
Definition by_role : node :=
  document
    [ Tag "div" [("role", "main" +:+ Py.nl)] [text "Docs"];
      Tag "div" [("id", "content")] [text "Other"] ].

Definition corpus : list node :=
  [home; guide; document [home_main]; document [guide_main]; twice; intro;
   anchored; by_role].

Definition parse (markup : string) : node :=
  default (document [])
          (head (List.filter (fun d => String.eqb (render d) markup) corpus)).

Definition fetch (url : string) : response :=
  if String.eqb url home_url then Response 200 (render home)
  else if String.eqb url guide_url then Response 200 (render guide)
  else if String.eqb url missing_url then Response 404 "Not Found"
  else RequestException.

(** [urlparse] on URLs of the shape [scheme://netloc/path], and on
    references without a scheme. *)
Fixpoint upto_slash (s : string) : string :=
  match s with
  | "" => ""
  | String c r => if Ascii.eqb c "/" then "" else String c (upto_slash r)
  end.

Definition parse_url (url : string) : option (string * string) :=
  if Py.startswith url "https://" then Some ("https", upto_slash (substring 8 (String.length url) url))
  else if Py.startswith url "http://" then Some ("http", upto_slash (substring 7 (String.length url) url))
  else if Py.startswith url "mailto:" then Some ("mailto", "")
  else Some ("", "").

(** [urljoin] on the references of the site: an absolute path replaces
    the path of the base, an absolute URL is taken as it is. *)
Definition join_url (base href : string) : option string :=
  if Py.startswith href "/" then
    match parse_url base with
    | Some (scheme, netloc) => Some (scheme +:+ "://" +:+ netloc +:+ href)
    | None => None
    end
  else Some href.

Definition site : Library :=
  {| urlparse := parse_url;
     urljoin := join_url;
     SESSION_get := fetch;
     BeautifulSoup := parse;
     str := render;
     sleep_ok := true |}.

Definition overview_pages : list (string * (string * string)) :=
  [ (home_url, ("Home", render (document [home_main])));
    (guide_url, ("Guide", render (document [guide_main]))) ].

Definition clash_pages : list (string * (string * string)) :=
  [ (home_url, ("Home", render intro));
    (guide_url, ("Guide", render intro));
    (missing_url, ("Twice", render twice)) ].


(** The state in which the crawl of the site with a cap of ten pages
    leaves its loop. *)
Definition final : crawl_state :=
  match @crawl_run site home_url 10 None with
  | Some (Ok st) => st
  | _ => crawl_init home_url
  end.

(** The state after the first turn of that crawl. *)
Definition after_home : crawl_state :=
  match @crawl_body site "docs.example.com" "https://docs.example.com" None
                    (crawl_init home_url) with
  | Ok st => st
  | Raises => crawl_init home_url
  end.

End Demo.

(** ** Auxiliary notions for the proofs *)

(** Every character of [s] satisfies [p]. *)
Definition all_chars (p : ascii -> bool) (s : string) : Prop :=
  forall c, c ∈ list_ascii_of_string s -> p c = true.

(** The four ways one turn of the [while] loop can end without raising:
    the popped URL was already visited; it was rejected before any
    request; its request failed; its page was recorded and the links
    [new] were appended to the frontier. *)
Inductive body_outcome `{Library} (base_netloc scheme_and_netloc : string)
    (st st' : crawl_state) : Prop :=
| outcome_skipped url rest :
    to_visit st = url :: rest ->
    url ∈ visited st ->
    st' = CrawlState rest (visited st) (pages st) (requests st) ->
    body_outcome base_netloc scheme_and_netloc st st'
| outcome_rejected url rest :
    to_visit st = url :: rest ->
    url ∉ visited st ->
    st' = CrawlState rest ({[url]} ∪ visited st) (pages st) (requests st) ->
    body_outcome base_netloc scheme_and_netloc st st'
| outcome_failed url rest :
    to_visit st = url :: rest ->
    url ∉ visited st ->
    fetched_ok url = false ->
    st' = CrawlState rest ({[url]} ∪ visited st) (pages st) (requests st ++ [url]) ->
    body_outcome base_netloc scheme_and_netloc st st'
| outcome_recorded url rest v new :
    to_visit st = url :: rest ->
    url ∉ visited st ->
    fetched_ok url = true ->
    st' = CrawlState (rest ++ new) ({[url]} ∪ visited st)
                     (od_set url v (pages st)) (requests st ++ [url]) ->
    NoDup new ->
    (forall h, h ∈ new ->
       (h ∉ {[url]} ∪ visited st) /\ (h ∉ rest) /\
       Py.startswith h scheme_and_netloc = true /\
       is_same_domain base_netloc h = true) ->
    body_outcome base_netloc scheme_and_netloc st st'.

(** What the request log says about the pages: each URL was requested at
    most once and is visited, and the recorded pages are the successful
    requests in the order they were made. *)
Definition log_inv `{Library} (st : crawl_state) : Prop :=
  NoDup (requests st) /\
  (forall u, u ∈ requests st -> u ∈ visited st) /\
  keys (pages st) = List.filter fetched_ok (requests st).

(** Where the URLs of the frontier and of the result come from. *)
Definition origin_inv (start_url scheme_and_netloc : string) (st : crawl_state)
  : Prop :=
  (forall u, u ∈ to_visit st ->
     u = start_url \/ Py.startswith u scheme_and_netloc = true) /\
  (forall u, u ∈ keys (pages st) ->
     u = start_url \/ Py.startswith u scheme_and_netloc = true).

(** A link the discovery loop appends to the frontier when it is new:
    non-empty, same-site, not a media file, under [scheme://netloc]. *)
Definition crawlable `{Library} (base_netloc scheme_and_netloc href : string) : bool :=
  Py.truthy href && is_same_domain base_netloc href
  && negb (Re.media_search href) && Py.startswith href scheme_and_netloc.

(** The elements of [l] in the order of their first occurrence, those of
    [seen] left out. *)
Fixpoint first_occurrences (seen l : list string) : list string :=
  match l with
  | [] => []
  | x :: r =>
      if bool_decide (x ∈ seen) then first_occurrences seen r
      else x :: first_occurrences (x :: seen) r
  end.

(** The junk that [clean_html_fragment] removes. *)
Definition is_junk (n : node) : bool :=
  is_junk_tag n || existsb (fun cls => has_class cls n) junk_classes.

(** The selector [sel] yields no candidate: its first match, if any, has
    no text once stripped. *)
Definition no_candidate (soup : node) (sel : node -> bool) : Prop :=
  forall q d, find_path sel soup = Some q -> subtree q soup = Some d ->
    Py.truthy (get_text true d) = false.

(** [not (allowed_path_prefix and not url.startswith(allowed_path_prefix))] *)
Definition within_prefix (allowed_path_prefix : option string) (url : string) : bool :=
  negb (Py.truthy_opt allowed_path_prefix
        && negb (Py.startswith url (default "" allowed_path_prefix))).

(** What holds of every URL of the frontier and of the request log, and
    of every recorded page. *)
Definition effects_inv `{Library} (start_url base_netloc scheme_and_netloc : string)
    (allowed_path_prefix : option string) (st : crawl_state) : Prop :=
  (forall u, u ∈ to_visit st ->
     u = start_url \/ crawlable base_netloc scheme_and_netloc u = true) /\
  (forall u, u ∈ requests st ->
     (u = start_url \/ crawlable base_netloc scheme_and_netloc u = true) /\
     is_same_domain base_netloc u = true /\
     within_prefix allowed_path_prefix u = true).

Definition pages_inv `{Library} (st : crawl_state) : Prop :=
  forall u v, (u, v) ∈ pages st ->
    exists text, SESSION_get u = Response 200 text /\ page_record u text = Some v.

(** The [href] values the link loop reads on a page with markup [text]:
    those of the anchors left in the document once the main content has
    been cleaned in place. *)
Definition page_anchors `{Library} (text : string) : list string :=
  let soup := BeautifulSoup text in
  match extract_main_html soup with
  | None => []
  | Some main => anchors (update_at main clean_html_fragment soup)
  end.

(** Every link of a recorded page that the loop would accept is visited
    or waits on the frontier. *)
Definition closure_inv `{Library} (base_netloc scheme_and_netloc : string)
    (st : crawl_state) : Prop :=
  forall u text raw href,
    u ∈ keys (pages st) ->
    SESSION_get u = Response 200 text ->
    raw ∈ page_anchors text ->
    normalize_link u raw = Ok (Some href) ->
    crawlable base_netloc scheme_and_netloc href = true ->
    href ∈ visited st \/ href ∈ to_visit st.

(** A visited URL was requested, unless it was rejected as off-site or
    outside the allowed prefix. *)
Definition visited_inv `{Library} (base_netloc : string)
    (allowed_path_prefix : option string) (st : crawl_state) : Prop :=
  forall u, u ∈ visited st ->
    u ∈ requests st \/ is_same_domain base_netloc u = false
    \/ within_prefix allowed_path_prefix u = false.

(** [s] does not begin with whitespace. *)
Definition clean_front (s : string) : bool :=
  match s with "" => true | String c _ => negb (Py.is_space c) end.





(** [d], at position [p], is the first node of [soup] in document order
    that [sel] selects: what [select_one] answers. *)
Definition first_selected (sel : node -> bool) (soup : node) (p : path) (d : node)
  : Prop :=
  exists pre post,
    walk soup = (pre ++ (p, d) :: post)%list /\ sel d = true /\
    Forall (fun pd => sel (snd pd) = false) pre.

(** * Properties *)

(** ** Strings *)

Lemma node_ind (P : node -> Prop) :
  (forall s, P (NavigableString s)) ->
  (forall s, P (Comment s)) ->
  (forall name attrs cs, Forall P cs -> P (Tag name attrs cs)) ->
  forall n, P n.
Proof.
  intros Hs Hc Ht. fix IH 1. intros [s|s|name attrs cs]; [apply Hs|apply Hc|].
  apply Ht. induction cs as [|c cs IHcs]; constructor; [apply IH|apply IHcs].
Qed.

Lemma all_chars_nil p : all_chars p "".
Proof. intros c Hc. simpl in Hc. inversion Hc. Qed.

Lemma all_chars_cons p c s :
  all_chars p (String c s) <-> p c = true /\ all_chars p s.
Proof.
  unfold all_chars; simpl. split.
  - intros Hall. split; [apply Hall; left|]. intros d Hd. apply Hall. by right.
  - intros [Hc Hs] d Hd. apply elem_of_cons in Hd as [->|Hd]; auto.
Qed.

Lemma all_chars_app p s t :
  all_chars p s -> all_chars p t -> all_chars p (s +:+ t).
Proof.
  induction s as [|c s IHs]; simpl; [done|].
  intros [Hc Hs]%all_chars_cons Ht. apply all_chars_cons. auto.
Qed.

Lemma pretty_N_char_digit x : Py.is_digit (pretty_N_char x) = true.
Proof. destruct x as [|p]; [done|]. do 4 (destruct p as [p|p|]; try done). Qed.

Lemma pretty_N_go_digits x s :
  all_chars Py.is_digit s -> all_chars Py.is_digit (pretty_N_go x s).
Proof.
  revert s. induction (N.lt_wf_0 x) as [x _ IH]. intros s Hs.
  destruct (decide (x = 0)%N) as [->|Hx]; [by rewrite pretty_N_go_0|].
  rewrite pretty_N_go_step by lia. apply IH.
  - apply N.div_lt; lia.
  - apply all_chars_cons. split; [apply pretty_N_char_digit|done].
Qed.

Lemma pretty_nat_digits (i : nat) : all_chars Py.is_digit (pretty i).
Proof.
  unfold pretty, pretty_nat, pretty, pretty_N. case_decide.
  - apply all_chars_cons. split; [done|apply all_chars_nil].
  - apply pretty_N_go_digits, all_chars_nil.
Qed.

(** Two runs of digits, each closed by a dash, agree when what they begin
    agrees. *)
Lemma digits_dash_inj d1 d2 a b :
  all_chars Py.is_digit d1 -> all_chars Py.is_digit d2 ->
  d1 +:+ "-" +:+ a = d2 +:+ "-" +:+ b -> d1 = d2.
Proof.
  revert d2. induction d1 as [|c d1 IH]; intros [|c' d2] H1 H2 Heq; cbv [String.append] in Heq; fold String.append in Heq.
  - done.
  - apply all_chars_cons in H2 as [Hc _]. by injection Heq as <- _.
  - apply all_chars_cons in H1 as [Hc _]. by injection Heq as -> _.
  - apply all_chars_cons in H1 as [_ H1]. apply all_chars_cons in H2 as [_ H2].
    injection Heq as -> Heq. f_equal. eauto.
Qed.

Lemma synth_id_page_inj i j h1 h2 : synth_id i h1 = synth_id j h2 -> i = j.
Proof.
  unfold synth_id. intros Heq. injection Heq as Heq.
  apply digits_dash_inj in Heq; auto using pretty_nat_digits.
  by apply (inj pretty) in Heq.
Qed.

Lemma chapter_id_inj (i j : nat) :
  "chapter-" +:+ pretty i = "chapter-" +:+ pretty j -> i = j.
Proof. intros Heq. apply (inj (String.app _)) in Heq. by apply (inj pretty) in Heq. Qed.

(** ** Trees *)

Lemma attr_get_set key v attrs : attr_get key (attr_set key v attrs) = Some v.
Proof.
  induction attrs as [|[k w] attrs IH]; simpl.
  - by rewrite String.eqb_refl.
  - destruct (String.eqb k key) eqn:Hk; simpl; by rewrite Hk.
Qed.

Lemma is_heading_ensure_id i n : is_heading (ensure_id i n) = is_heading n.
Proof. by destruct n. Qed.

Lemma get_id_ensure_id i h :
  is_heading h = true ->
  get "id" (ensure_id i h) = if lacks_id h then Some (synth_id i h) else get "id" h.
Proof.
  destruct h as [s|s|name attrs cs]; try done.
  intros Hh. unfold get. cbn [ensure_id tag_attrs]. rewrite Hh. cbn [andb].
  destruct (lacks_id _); [apply attr_get_set|done].
Qed.

Lemma walk_list_map (f : node -> node) k cs :
  Forall (fun c => walk (f c) = map (fun pd => (fst pd, f (snd pd))) (walk c)) cs ->
  walk_list walk k (map f cs)
  = map (fun pd => (fst pd, f (snd pd))) (walk_list walk k cs).
Proof.
  intros Hcs. revert k. induction Hcs as [|c cs Hc _ IH]; intros k; simpl; [done|].
  f_equal. rewrite map_app, IH, Hc, !map_map. done.
Qed.

Lemma walk_ensure_id i n :
  walk (ensure_id i n) = map (fun pd => (fst pd, ensure_id i (snd pd))) (walk n).
Proof.
  induction n as [s|s|name attrs cs IH] using node_ind; simpl; try done.
  by apply walk_list_map.
Qed.

Lemma walk_ensure_heading_ids i soup :
  walk (ensure_heading_ids i soup)
  = map (fun pd => (fst pd, ensure_id i (snd pd))) (walk soup).
Proof.
  destruct soup as [s|s|name attrs cs]; simpl; try done.
  apply walk_list_map, Forall_forall. intros c _. apply walk_ensure_id.
Qed.

Lemma filter_map_comm {A B} (p : B -> bool) (f : A -> B) l :
  List.filter p (map f l) = map f (List.filter (fun x => p (f x)) l).
Proof.
  induction l as [|x l IH]; simpl; [done|]. destruct (p (f x)); simpl; by rewrite IH.
Qed.

(** The headings after the id pass are the headings before it, each one
    passed through [ensure_id], in the same order. *)
Lemma headings_ensure_heading_ids i soup :
  headings (ensure_heading_ids i soup) = map (ensure_id i) (headings soup).
Proof.
  unfold headings, find_all, descendants.
  rewrite walk_ensure_heading_ids, map_map. simpl.
  rewrite <-(map_map snd (ensure_id i)), filter_map_comm. f_equal.
  apply filter_ext. intros n. apply is_heading_ensure_id.
Qed.

(** Every descendant the walk reports sits at the path reported with it. *)
Lemma walk_list_subtree k cs q d :
  Forall (fun c => forall q d, (q, d) ∈ walk c -> subtree q c = Some d) cs ->
  (q, d) ∈ walk_list walk k cs ->
  exists j q', q = (k + j)%nat :: q' /\
    match cs !! j with Some c => subtree q' c = Some d | None => False end.
Proof.
  intros Hcs. revert k. induction Hcs as [|c cs Hc _ IH]; intros k; simpl.
  - by intros ?%elem_of_nil.
  - rewrite elem_of_cons, elem_of_app. intros [Heq|[Hin|Hin]].
    + injection Heq as -> ->. exists 0%nat, []. split; [f_equal; lia|done].
    + apply list_elem_of_fmap in Hin as [[q' d'] [Heq Hin]]. simpl in Heq.
      injection Heq as -> ->. exists 0%nat, q'. split; [f_equal; lia|]. simpl. eauto.
    + apply IH in Hin as (j & q' & -> & Hj). exists (S j), q'.
      split; [f_equal; lia|done].
Qed.

Lemma walk_subtree n q d : (q, d) ∈ walk n -> subtree q n = Some d.
Proof.
  revert q d. induction n as [s|s|name attrs cs IH] using node_ind; simpl;
    intros q d Hin; try by apply elem_of_nil in Hin.
  apply (walk_list_subtree 0) in Hin as (j & q' & -> & Hj); [|done].
  simpl. by destruct (cs !! j).
Qed.

Lemma find_path_subtree p soup q :
  find_path p soup = Some q -> exists d, subtree q soup = Some d /\ p d = true.
Proof.
  unfold find_path. destruct (head _) as [[q' d]|] eqn:Hhd; [|done].
  intros [= <-]. apply head_Some_elem_of, list_elem_of_In, filter_In in Hhd as [Hin Hp].
  exists d. split; [|done]. by apply walk_subtree, list_elem_of_In.
Qed.

(** ** Content extractor *)

Lemma first_candidate_subtree soup sels p :
  first_candidate soup sels = Some p -> exists d, subtree p soup = Some d.
Proof.
  induction sels as [|sel sels IH]; simpl; [done|].
  destruct (find_path sel soup) as [q|]; [|done].
  destruct (subtree q soup) as [tag|] eqn:Hq; [|done].
  destruct (Py.truthy _); [|done]. intros [= <-]. eauto.
Qed.

(** The extractor always answers with a reference to a node of the
    document it was given. *)
Lemma extract_main_html_Some soup :
  exists p d, extract_main_html soup = Some p /\ subtree p soup = Some d.
Proof.
  unfold extract_main_html.
  destruct (first_candidate soup selectors) as [p|] eqn:Hc.
  - apply first_candidate_subtree in Hc as [d Hd]. eauto.
  - destruct (find_path (named "body") soup) as [q|] eqn:Hb; simpl.
    + apply find_path_subtree in Hb as (d & Hd & _). eauto.
    + exists [], soup. done.
Qed.

(** ** One turn of the crawl loop *)

Lemma keys_od_set_fresh {V} (k : string) (v : V) d :
  k ∉ keys d -> keys (od_set k v d) = (keys d ++ [k])%list.
Proof.
  induction d as [|[k' v'] d IH]; simpl; [done|].
  rewrite not_elem_of_cons. intros [Hne Hin].
  destruct (String.eqb k' k) eqn:Hk.
  - apply String.eqb_eq in Hk. congruence.
  - simpl. f_equal. auto.
Qed.

Lemma keys_od_set_elem {V} (k : string) (v : V) d u :
  u ∈ keys (od_set k v d) <-> u = k \/ u ∈ keys d.
Proof.
  induction d as [|[k' v'] d IH]; simpl.
  - rewrite list_elem_of_singleton. unfold keys; simpl. rewrite elem_of_nil. tauto.
  - destruct (String.eqb k' k) eqn:Hk; simpl.
    + apply String.eqb_eq in Hk as ->. rewrite !elem_of_cons. tauto.
    + rewrite !elem_of_cons, IH. tauto.
Qed.

Section CrawlFacts.
Context `{Library}.
Variables (base_netloc scheme_and_netloc : string).
Variables (max_pages : Z) (allowed_path_prefix : option string).

Lemma consider_link_cases url st raw st' :
  consider_link base_netloc scheme_and_netloc url st raw = Ok st' ->
  st' = st \/
  exists href, st' = to_visit_append href st /\
    (href ∉ visited st) /\ (href ∉ to_visit st) /\
    Py.startswith href scheme_and_netloc = true /\
    is_same_domain base_netloc href = true.
Proof.
  unfold consider_link. destruct (normalize_link url raw) as [[href|]|]; [| |done].
  - destruct (Py.truthy href); simpl; [|intros [= <-]; by left].
    destruct (is_same_domain base_netloc href) eqn:Hsame; simpl;
      [|intros [= <-]; by left].
    destruct (Re.media_search href); [intros [= <-]; by left|].
    destruct (bool_decide (href ∈ visited st)) eqn:Hv; simpl;
      [intros [= <-]; by left|].
    destruct (bool_decide (href ∈ to_visit st)) eqn:Hq; simpl;
      [intros [= <-]; by left|].
    destruct (Py.startswith href scheme_and_netloc) eqn:Hpre;
      intros [= <-]; [right|by left].
    apply bool_decide_eq_false in Hv, Hq. exists href. done.
  - intros [= <-]. by left.
Qed.

Lemma discover_links_cases url hrefs st st' :
  discover_links base_netloc scheme_and_netloc url hrefs st = Ok st' ->
  exists new,
    st' = CrawlState (to_visit st ++ new) (visited st) (pages st) (requests st) /\
    NoDup new /\
    forall h, h ∈ new ->
      (h ∉ visited st) /\ (h ∉ to_visit st) /\
      Py.startswith h scheme_and_netloc = true /\
      is_same_domain base_netloc h = true.
Proof.
  revert st. induction hrefs as [|raw hrefs IH]; intros st; simpl.
  - intros [= <-]. exists []. rewrite app_nil_r. destruct st.
    split; [done|]. split; [constructor|]. by intros h ?%elem_of_nil.
  - destruct (consider_link _ _ url st raw) as [st1|] eqn:Hlink; [|done].
    intros Hrest. apply IH in Hrest as (new & -> & Hnd & Hnew).
    apply consider_link_cases in Hlink as [->|(href & -> & Hv & Hq & Hp & Hs)].
    + exists new. done.
    + exists (href :: new). simpl in *. rewrite <-app_assoc. split; [done|].
      split.
      * constructor; [|done]. intros Hin. apply Hnew in Hin as (_ & Hin & _).
        apply Hin, elem_of_app. right. by left.
      * intros h [->|Hin]%elem_of_cons; [done|].
        apply Hnew in Hin as (? & Hin & ? & ?). repeat split; try done.
        intros ?. apply Hin, elem_of_app. by left.
Qed.

Lemma after_sleep_Ok {A} (r : result A) a : after_sleep r = Ok a -> r = Ok a.
Proof. destruct r as [b|]; simpl; [|done]. by destruct sleep_ok. Qed.

Lemma process_page_cases url text st st' :
  process_page base_netloc scheme_and_netloc url text st = Ok st' ->
  exists v new,
    st' = CrawlState (to_visit st ++ new) ({[url]} ∪ visited st)
                     (od_set url v (pages st)) (requests st) /\
    NoDup new /\
    forall h, h ∈ new ->
      (h ∉ {[url]} ∪ visited st) /\ (h ∉ to_visit st) /\
      Py.startswith h scheme_and_netloc = true /\
      is_same_domain base_netloc h = true.
Proof.
  unfold process_page.
  destruct (extract_main_html_Some (BeautifulSoup text)) as (p & d & -> & _).
  intros Hd%after_sleep_Ok. apply discover_links_cases in Hd as (new & -> & Hnd & Hnew).
  eexists _, new. done.
Qed.

Lemma crawl_body_outcome st st' :
  crawl_body base_netloc scheme_and_netloc allowed_path_prefix st = Ok st' ->
  body_outcome base_netloc scheme_and_netloc st st'.
Proof.
  unfold crawl_body. destruct (to_visit st) as [|url rest] eqn:Hq; [done|].
  cbn [visited]. case_bool_decide as Hv.
  { intros [= <-]. by eapply outcome_skipped. }
  destruct (negb (is_same_domain base_netloc url)).
  { intros [= <-]. by eapply outcome_rejected. }
  destruct (_ && _).
  { intros [= <-]. by eapply outcome_rejected. }
  destruct (SESSION_get url) as [|status_code text] eqn:Hget.
  { intros [= <-]. eapply outcome_failed; eauto. unfold fetched_ok. by rewrite Hget. }
  destruct (status_code =? 200)%Z eqn:Hs; simpl.
  - intros Hp. apply process_page_cases in Hp as (v & new & -> & Hnd & Hnew).
    eapply outcome_recorded; eauto. unfold fetched_ok. by rewrite Hget.
  - intros [= <-]. eapply outcome_failed; eauto. unfold fetched_ok. by rewrite Hget.
Qed.

End CrawlFacts.

(** ** What one turn keeps true *)

Lemma size_add_fresh (url : string) (X : gset string) :
  url ∉ X -> size ({[url]} ∪ X) = S (size X).
Proof. intros Hx. rewrite size_union by set_solver. by rewrite size_singleton. Qed.

Lemma length_le_size (l : list string) (X : gset string) :
  NoDup l -> (forall u, u ∈ l -> u ∈ X) -> (length l <= size X)%nat.
Proof.
  intros Hnd Hsub. rewrite <-(size_list_to_set (C := gset string) l) by done.
  apply subseteq_size. intros u Hu. apply elem_of_list_to_set in Hu. auto.
Qed.

Lemma NoDup_filter_bool {A} (p : A -> bool) (l : list A) :
  NoDup l -> NoDup (List.filter p l).
Proof.
  induction 1 as [|x l Hx _ IH]; simpl; [constructor|].
  destruct (p x); [|done]. constructor; [|done].
  intros Hin. apply Hx. apply list_elem_of_In, filter_In in Hin as [Hin _].
  by apply list_elem_of_In.
Qed.

Section Invariants.
Context `{Library}.
Variables (base_netloc scheme_and_netloc : string).

Local Abbreviation outcome := (body_outcome base_netloc scheme_and_netloc).

Lemma frontier_inv_outcome st st' :
  frontier_inv st -> outcome st st' -> frontier_inv st'.
Proof.
  intros [Hnd Hdis] [url rest Hq Hv ->|url rest Hq Hv ->|url rest Hq Hv _ ->
                    |url rest v new Hq Hv _ -> Hnew Hfresh];
    rewrite Hq in Hnd, Hdis; apply NoDup_cons in Hnd as [Hurl Hrest];
    split; simpl.
  - done.
  - intros u Hu. apply Hdis. by right.
  - done.
  - intros u Hu. rewrite elem_of_union, elem_of_singleton.
    intros [->|Hin]; [done|]. eapply Hdis; [|done]. by right.
  - done.
  - intros u Hu. rewrite elem_of_union, elem_of_singleton.
    intros [->|Hin]; [done|]. eapply Hdis; [|done]. by right.
  - apply NoDup_app. split; [done|]. split; [|done].
    intros u Hu Hin. apply Hfresh in Hin as (_ & Hin & _). done.
  - intros u [Hu|Hu]%elem_of_app.
    + rewrite elem_of_union, elem_of_singleton.
      intros [->|Hin]; [done|]. eapply Hdis; [|done]. by right.
    + by apply Hfresh in Hu as (Hu & _).
Qed.

Lemma visited_outcome_le st st' :
  outcome st st' -> (size (visited st') <= S (size (visited st)))%nat.
Proof.
  intros [url rest _ _ ->|url rest _ Hv ->|url rest _ Hv _ ->
         |url rest v new _ Hv _ -> _ _]; simpl;
    rewrite ?size_add_fresh by done; lia.
Qed.

(** With a sound frontier every turn visits one more URL. *)
Lemma visited_outcome_fresh st st' :
  frontier_inv st -> outcome st st' ->
  size (visited st') = S (size (visited st)).
Proof.
  intros [_ Hdis] [url rest Hq Hv ->|url rest _ Hv ->|url rest _ Hv _ ->
                  |url rest v new _ Hv _ -> _ _]; simpl;
    rewrite ?size_add_fresh by done; try done.
  exfalso. eapply Hdis; [|done]. rewrite Hq. by left.
Qed.

Lemma log_inv_outcome st st' : log_inv st -> outcome st st' -> log_inv st'.
Proof.
  intros (Hnd & Hvis & Hkeys)
         [url rest _ _ ->|url rest _ Hv ->|url rest _ Hv Hok ->
         |url rest v new _ Hv Hok -> _ _]; unfold log_inv; simpl.
  - done.
  - split; [done|]. split; [|done]. intros u Hu. set_solver.
  - split; [|split].
    + apply NoDup_app. split; [done|]. split; [|apply NoDup_singleton].
      intros u Hu ->%list_elem_of_singleton. auto.
    + intros u [Hu| ->%list_elem_of_singleton]%elem_of_app; set_solver.
    + rewrite List.filter_app. simpl. rewrite Hok, app_nil_r. done.
  - assert (url ∉ requests st) as Hreq by (intros Hin; auto).
    split; [|split].
    + apply NoDup_app. split; [done|]. split; [|apply NoDup_singleton].
      intros u Hu ->%list_elem_of_singleton. auto.
    + intros u [Hu| ->%list_elem_of_singleton]%elem_of_app; set_solver.
    + rewrite List.filter_app. simpl. rewrite Hok, <-Hkeys.
      apply keys_od_set_fresh. rewrite Hkeys. intros Hin.
      apply list_elem_of_In, filter_In in Hin as [Hin _].
      by apply Hreq, list_elem_of_In.
Qed.

Lemma origin_inv_outcome start_url st st' :
  origin_inv start_url scheme_and_netloc st -> outcome st st' ->
  origin_inv start_url scheme_and_netloc st'.
Proof.
  intros [Hq Hp] [url rest Hto _ ->|url rest Hto _ ->|url rest Hto _ _ ->
                 |url rest v new Hto _ _ -> _ Hfresh];
    rewrite Hto in Hq; split; simpl; try done;
    try (intros u Hu; apply Hq; by right).
  - intros u [Hu|Hu]%elem_of_app; [apply Hq; by right|].
    right. by apply Hfresh in Hu as (_ & _ & Hu & _).
  - intros u [->|Hu]%keys_od_set_elem; [apply Hq; by left|by apply Hp].
Qed.

End Invariants.

Section Runs.
Context `{Library}.
Variables (start_url : string) (max_pages : Z) (allowed_path_prefix : option string).

Local Abbreviation reach := (reachable start_url max_pages allowed_path_prefix).

Lemma reachable_frontier_inv st : reach st -> frontier_inv st.
Proof.
  induction 1 as [|scheme netloc st st' _ IH _ _ Hbody].
  - split; simpl; [apply NoDup_singleton|]. intros u _. set_solver.
  - eauto using frontier_inv_outcome, crawl_body_outcome.
Qed.

Lemma reachable_log_inv st : reach st -> log_inv st.
Proof.
  induction 1 as [|scheme netloc st st' _ IH _ _ Hbody].
  - split; [constructor|]. split; [|done]. by intros u ?%elem_of_nil.
  - eauto using log_inv_outcome, crawl_body_outcome.
Qed.

Lemma reachable_origin_inv scheme netloc st :
  urlparse start_url = Some (scheme, netloc) -> reach st ->
  origin_inv start_url (scheme +:+ "://" +:+ netloc) st.
Proof.
  intros Hparse. induction 1 as [|scheme' netloc' st st' _ IH Hparse' _ Hbody].
  - split; simpl; [|by intros u ?%elem_of_nil].
    intros u ->%list_elem_of_singleton. by left.
  - rewrite Hparse in Hparse'. injection Hparse' as <- <-.
    eauto using origin_inv_outcome, crawl_body_outcome.
Qed.

Lemma reachable_cap st :
  (0 <= max_pages)%Z -> reach st -> (Z.of_nat (size (visited st)) <= max_pages)%Z.
Proof.
  intros Hn. induction 1 as [|scheme netloc st st' _ IH _ Hcond Hbody].
  - cbn [crawl_init visited]. rewrite size_empty. lia.
  - apply crawl_body_outcome, visited_outcome_le in Hbody.
    unfold loop_cond in Hcond. apply andb_true_iff in Hcond as [_ Hlt]. lia.
Qed.

(** The loop, started in a reachable state, ends in a reachable state in
    which its condition is false. *)
Lemma crawl_loop_end scheme netloc fuel st r :
  urlparse start_url = Some (scheme, netloc) ->
  reach st ->
  crawl_loop netloc (scheme +:+ "://" +:+ netloc) max_pages allowed_path_prefix
             fuel st = Some (Ok r) ->
  reach r /\ loop_cond max_pages r = false.
Proof.
  intros Hparse. revert st. induction fuel as [|fuel IH]; intros st Hst; simpl;
    destruct (loop_cond max_pages st) eqn:Hcond; try done;
    try (intros [= <-]; done).
  destruct (crawl_body _ _ _ st) as [st'|] eqn:Hbody; [|done].
  apply IH. by eapply reach_body.
Qed.

(** Fuel for as many turns as [max_pages] leaves room for is enough. *)
Lemma crawl_loop_fuel scheme netloc fuel st :
  frontier_inv st ->
  (Z.to_nat max_pages - size (visited st) <= fuel)%nat ->
  exists r,
    crawl_loop netloc (scheme +:+ "://" +:+ netloc) max_pages allowed_path_prefix
               fuel st = Some r.
Proof.
  revert st. induction fuel as [|fuel IH]; intros st Hinv Hfuel; simpl;
    destruct (loop_cond max_pages st) eqn:Hcond; eauto.
  - unfold loop_cond in Hcond. apply andb_true_iff in Hcond as [_ Hlt]. lia.
  - destruct (crawl_body _ _ _ st) as [st'|] eqn:Hbody; eauto.
    apply crawl_body_outcome in Hbody.
    apply IH; [by eapply frontier_inv_outcome|].
    rewrite (visited_outcome_fresh _ _ st st') by done. lia.
Qed.

Lemma crawl_run_returns :
  exists r, crawl_run start_url max_pages allowed_path_prefix = Some r.
Proof.
  unfold crawl_run. destruct (urlparse start_url) as [[scheme netloc]|]; eauto.
  apply crawl_loop_fuel; [apply reachable_frontier_inv, reach_init|lia].
Qed.

Lemma crawl_run_end st :
  crawl_run start_url max_pages allowed_path_prefix = Some (Ok st) ->
  reach st /\ loop_cond max_pages st = false.
Proof.
  unfold crawl_run. destruct (urlparse start_url) as [[scheme netloc]|] eqn:Hp; [|done].
  apply crawl_loop_end; [done|apply reach_init].
Qed.

End Runs.

(** ** The slug of a heading *)

Lemma sub_unsafe_go_collapsed s :
  collapsed s (Re.sub_unsafe_go false s) /\ after_run s (Re.sub_unsafe_go true s).
Proof.
  induction s as [|c s [IHc IHr]]; simpl.
  - split; constructor.
  - destruct (Re.safe_char c) eqn:Hc; split; by constructor.
Qed.

Lemma sub_unsafe_go_safe b s : all_chars Re.safe_char (Re.sub_unsafe_go b s).
Proof.
  revert b. induction s as [|c s IH]; intros b; simpl; [apply all_chars_nil|].
  destruct (Re.safe_char c) eqn:Hc; [by apply all_chars_cons|].
  destruct b; [done|]. by apply all_chars_cons.
Qed.

Lemma take_length n s : (String.length (Py.take n s) <= n)%nat.
Proof.
  unfold Py.take. revert s. induction n as [|n IH]; intros [|c s]; simpl; try lia.
  specialize (IH s). lia.
Qed.

Lemma take_all_chars p n s : all_chars p s -> all_chars p (Py.take n s).
Proof.
  unfold Py.take. revert s. induction n as [|n IH]; intros [|c s]; simpl;
    try (intros _; apply all_chars_nil).
  intros [Hc Hs]%all_chars_cons. apply all_chars_cons. auto.
Qed.

(** ** Chapters *)

Section Chapters.
Context `{Library}.

Lemma chapters_from_lookup i pages k :
  chapters_from i pages !! k = build_chapter (i + k) <$> pages !! k.
Proof.
  revert i k. induction pages as [|page pages IH]; intros i [|k]; simpl; try done.
  - by rewrite Nat.add_0_r.
  - rewrite IH. do 2 f_equal. lia.
Qed.

Lemma chapters_lookup pages k :
  chapters pages !! k = build_chapter (S k) <$> pages !! k.
Proof. apply chapters_from_lookup. Qed.

Lemma chapters_from_length i pages :
  length (chapters_from i pages) = length pages.
Proof. revert i. induction pages; intros i; simpl; auto. Qed.


Lemma build_chapter_id i page : chapter_id (build_chapter i page) = "chapter-" +:+ pretty i.
Proof. by destruct page as [url [title html_content]]. Qed.

Lemma build_chapter_soup i page :
  chapter_soup (build_chapter i page)
  = ensure_heading_ids i (BeautifulSoup (snd (snd page))).
Proof. by destruct page as [url [title html_content]]. Qed.

(** The headings of a chapter are the headings of the parsed page, each
    one passed through [ensure_id]. *)
Lemma chapter_headings i page :
  headings (chapter_soup (build_chapter i page))
  = map (ensure_id i) (headings (BeautifulSoup (snd (snd page)))).
Proof. by rewrite build_chapter_soup, headings_ensure_heading_ids. Qed.

Lemma headings_are_headings soup h : h ∈ headings soup -> is_heading h = true.
Proof.
  unfold headings, find_all. intros Hin.
  by apply list_elem_of_In, filter_In in Hin as [_ Hh].
Qed.

Lemma chapter_ids_NoDup i pages : NoDup (map chapter_id (chapters_from i pages)).
Proof.
  apply NoDup_alt. intros k1 k2 x. rewrite !list_lookup_fmap, !chapters_from_lookup.
  destruct (pages !! k1) as [p1|]; [|done]. destruct (pages !! k2) as [p2|]; [|done].
  simpl. rewrite !build_chapter_id. intros [= <-] Heq.
  apply (inj Some), chapter_id_inj in Heq. lia.
Qed.

End Chapters.

(** * The claims *)

(** ** Book assembler *)

(** C2, as stated, fails: the prefix is [p<i>-], not [page<i>-], and the
    slug keeps the case of the text; the two "Overview" headings receive
    [p1-Overview] and [p2-Overview]. *)
Lemma C2_overview_ids :
  heading_ids (@chapters Demo.site Demo.overview_pages)
  = [Some "p1-Overview"; Some "p2-Overview"; Some "setup"]
  /\ String.eqb "p1-Overview" "page1-overview" = false
  /\ String.eqb "p2-Overview" "page2-overview" = false.
Proof. vm_compute. done. Qed.

(** C2 (amended): a heading without a non-empty id on the page of 1-based
    index [i] receives the id [p<i>-<slug>], where the slug is the first 60
    characters of the heading's text with every maximal run of characters
    outside [a-zA-Z0-9_-] replaced by one dash, case kept. *)
Theorem synthesized_heading_id `{Library}
    (pages : list (string * (string * string))) (k : nat)
    (page : string * (string * string)) (h : node) :
  pages !! k = Some page ->
  h ∈ headings (BeautifulSoup (snd (snd page))) ->
  lacks_id h = true ->
  exists c t,
    chapters pages !! k = Some c /\
    ensure_id (S k) h ∈ headings (chapter_soup c) /\
    collapsed (get_text false h) t /\
    get "id" (ensure_id (S k) h) = Some ("p" +:+ pretty (S k) +:+ "-" +:+ Py.take 60 t) /\
    (String.length (Py.take 60 t) <= 60)%nat /\
    all_chars Re.safe_char (Py.take 60 t).
Proof.
  intros Hpage Hh Hlacks.
  exists (build_chapter (S k) page), (Re.sub_unsafe (get_text false h)).
  rewrite chapters_lookup, Hpage, chapter_headings.
  split; [done|]. split; [by apply list_elem_of_fmap_2|].
  split; [apply sub_unsafe_go_collapsed|].
  split; [|split].
  - rewrite get_id_ensure_id, Hlacks by eauto using headings_are_headings. done.
  - apply take_length.
  - apply take_all_chars, sub_unsafe_go_safe.
Qed.

Lemma synthesized_heading_id_witness :
  exists c t,
    @chapters Demo.site Demo.overview_pages !! 1%nat = Some c /\
    ensure_id 2 (Tag "h2" [] [NavigableString "Overview"]) ∈ headings (chapter_soup c) /\
    collapsed (get_text false (Tag "h2" [] [NavigableString "Overview"])) t /\
    get "id" (ensure_id 2 (Tag "h2" [] [NavigableString "Overview"]))
    = Some ("p" +:+ pretty 2%nat +:+ "-" +:+ Py.take 60 t) /\
    (String.length (Py.take 60 t) <= 60)%nat /\
    all_chars Re.safe_char (Py.take 60 t).
Proof.
  apply (@synthesized_heading_id Demo.site Demo.overview_pages 1%nat
           (Demo.guide_url, ("Guide", Demo.render (Demo.document [Demo.guide_main])))).
  - reflexivity.
  - vm_compute. apply list_elem_of_here.
  - reflexivity.
Defined.

(** ** Link normalizer *)

Lemma before_hash_fragment_free href :
  fragment_free href = true -> Py.before_hash href = href.
Proof.
  induction href as [|c href IH]; simpl; [done|].
  destruct (Ascii.eqb c "#"); simpl; [done|]. intros Hf. by rewrite IH.
Qed.

(** ** Crawl engine *)


Lemma log_inv_keys `{Library} st u :
  log_inv st -> u ∈ keys (pages st) <-> u ∈ requests st /\ fetched_ok u = true.
Proof.
  intros (_ & _ & ->). by rewrite !list_elem_of_In, filter_In.
Qed.

Lemma log_inv_pages_le `{Library} st :
  log_inv st -> (length (pages st) <= size (visited st))%nat.
Proof.
  intros (Hnd & Hvis & Hkeys).
  replace (length (pages st)) with (length (keys (pages st)))
    by (unfold keys; by rewrite length_map).
  apply length_le_size.
  - rewrite Hkeys. by apply NoDup_filter_bool.
  - intros u Hu. apply Hvis. rewrite Hkeys in Hu.
    apply list_elem_of_In, filter_In in Hu as [Hu _]. by apply list_elem_of_In.
Qed.

Lemma crawl_docs_pages `{Library} start_url max_pages allowed_path_prefix pgs :
  crawl_docs start_url max_pages allowed_path_prefix = Some (Ok pgs) ->
  exists st,
    reachable start_url max_pages allowed_path_prefix st /\
    loop_cond max_pages st = false /\ pages st = pgs.
Proof.
  unfold crawl_docs.
  destruct (crawl_run _ _ _) as [[st|]|] eqn:Hrun; try done.
  intros [= <-]. apply crawl_run_end in Hrun as [Hreach Hcond]. eauto.
Qed.

(** C3, as stated, fails for a negative cap: with [max_pages = -1] the loop
    never runs, no URL is visited, and 0 is not at most -1. *)
Lemma C3_negative_cap :
  @crawl_run Demo.site Demo.home_url (-1) None = Some (Ok (crawl_init Demo.home_url)) /\
  size (visited (crawl_init Demo.home_url)) = 0%nat /\
  (Z.of_nat (size (visited (crawl_init Demo.home_url))) <=? -1)%Z = false.
Proof. vm_compute. done. Qed.

(** C3 (amended): for every cap [N >= 0] and every site the crawl returns,
    at most [N] URLs are ever marked visited, and the result holds at most
    [N] page records. *)
Theorem crawl_respects_cap `{Library} (start_url : string) (N : Z)
    (allowed_path_prefix : option string) :
  (0 <= N)%Z ->
  (exists r, crawl_docs start_url N allowed_path_prefix = Some r) /\
  (forall st, reachable start_url N allowed_path_prefix st ->
     (Z.of_nat (size (visited st)) <= N)%Z /\
     (Z.of_nat (length (pages st)) <= N)%Z) /\
  (forall pgs, crawl_docs start_url N allowed_path_prefix = Some (Ok pgs) ->
     (Z.of_nat (length pgs) <= N)%Z).
Proof.
  intros HN.
  assert (forall st, reachable start_url N allowed_path_prefix st ->
            (Z.of_nat (size (visited st)) <= N)%Z /\
            (Z.of_nat (length (pages st)) <= N)%Z) as Hcap.
  { intros st Hst. pose proof (reachable_cap _ _ _ st HN Hst).
    pose proof (log_inv_pages_le st (reachable_log_inv _ _ _ st Hst)). lia. }
  split; [|split; [done|]].
  - unfold crawl_docs.
    destruct (crawl_run_returns start_url N allowed_path_prefix) as [[st|] ->]; eauto.
  - intros pgs (st & Hst & _ & <-)%crawl_docs_pages. by apply Hcap.
Qed.

Lemma crawl_respects_cap_witness :
  exists pgs,
    @crawl_docs Demo.site Demo.home_url 1 None = Some (Ok pgs) /\
    (Z.of_nat (length pgs) <= 1)%Z.
Proof.
  exists [(Demo.home_url,
           ("Home", Demo.render (Demo.document [Demo.home_main])))].
  split; [vm_compute; reflexivity|].
  apply (proj2 (proj2 (@crawl_respects_cap Demo.site Demo.home_url 1 None ltac:(lia)))).
  vm_compute. reflexivity.
Defined.

Lemma demo_final_reachable :
  @reachable Demo.site Demo.home_url 10 None Demo.final.
Proof.
  apply (@crawl_run_end Demo.site Demo.home_url 10 None Demo.final).
  vm_compute. reflexivity.
Qed.

Lemma demo_after_home_reachable :
  @reachable Demo.site Demo.home_url 10 None Demo.after_home.
Proof.
  apply (@reach_body Demo.site Demo.home_url 10 None
           "https" "docs.example.com" (crawl_init Demo.home_url)).
  - apply reach_init.
  - reflexivity.
  - reflexivity.
  - vm_compute. reflexivity.
Qed.

Lemma frontier_inv_NoDup st :
  frontier_inv st <-> NoDup (to_visit st ++ elements (visited st)).
Proof.
  unfold frontier_inv. rewrite NoDup_app. split.
  - intros [Hnd Hdis]. repeat split; [done| |apply NoDup_elements].
    intros u Hu Hin%elem_of_elements. by eapply Hdis.
  - intros (Hnd & Hdis & _). split; [done|].
    intros u Hu Hin%elem_of_elements. by eapply Hdis.
Qed.

(** C4: at the start of the crawl and whenever the loop condition is
    evaluated, no URL occurs twice in the frontier followed by the visited
    set; and each step of a turn keeps the frontier duplicate-free and
    apart from the visited set: the pop, the marking of the popped URL
    (rejected, failed or fetched), the recording of a page, and every
    enqueueing of a link. *)
Theorem frontier_visited_invariant `{Library} (start_url : string) (max_pages : Z)
    (allowed_path_prefix : option string) :
  frontier_inv (crawl_init start_url) /\
  (forall st, reachable start_url max_pages allowed_path_prefix st ->
     frontier_inv st /\ NoDup (to_visit st ++ elements (visited st))) /\
  (forall st url rest,
     frontier_inv st -> to_visit st = url :: rest ->
     (url ∉ rest) /\
     frontier_inv (CrawlState rest (visited st) (pages st) (requests st)) /\
     frontier_inv (visited_add url
                     (CrawlState rest (visited st) (pages st) (requests st)))) /\
  (forall st url v,
     frontier_inv st ->
     frontier_inv (log_request url st) /\ frontier_inv (pages_set url v st)) /\
  (forall base_netloc scheme_and_netloc url st raw st',
     frontier_inv st ->
     consider_link base_netloc scheme_and_netloc url st raw = Ok st' ->
     frontier_inv st') /\
  (forall base_netloc scheme_and_netloc st st',
     frontier_inv st ->
     crawl_body base_netloc scheme_and_netloc allowed_path_prefix st = Ok st' ->
     frontier_inv st').
Proof.
  split; [apply (reachable_frontier_inv start_url max_pages allowed_path_prefix),
          reach_init|].
  split.
  { intros st Hst. apply reachable_frontier_inv in Hst.
    split; [done|by apply frontier_inv_NoDup]. }
  split.
  { intros st url rest [Hnd Hdis] Hq. rewrite Hq in Hnd, Hdis.
    apply NoDup_cons in Hnd as [Hurl Hrest]. split; [done|]. split; split; simpl; try done.
    - intros u Hu. apply Hdis. by right.
    - intros u Hu. rewrite elem_of_union, elem_of_singleton.
      intros [->|Hin]; [done|]. eapply Hdis; [|done]. by right. }
  split; [by intros st url v [Hnd Hdis]|].
  split.
  - intros bn sn url st raw st' [Hnd Hdis] Hlink.
    apply consider_link_cases in Hlink as [->|(href & -> & Hv & Hq & _)]; [done|].
    split; simpl.
    + apply NoDup_app. split; [done|]. split; [|apply NoDup_singleton].
      by intros u Hu ->%list_elem_of_singleton.
    + intros u [Hu| ->%list_elem_of_singleton]%elem_of_app; auto.
  - intros bn sn st st' Hinv Hbody.
    eauto using frontier_inv_outcome, crawl_body_outcome.
Qed.

Lemma frontier_visited_invariant_witness :
  to_visit Demo.after_home
  = ["https://docs.example.com/nav"; Demo.guide_url; Demo.missing_url]
  /\ NoDup (to_visit Demo.after_home ++ elements (visited Demo.after_home)).
Proof.
  split; [vm_compute; reflexivity|].
  apply (proj1 (proj2 (@frontier_visited_invariant Demo.site Demo.home_url 10 None))).
  apply demo_after_home_reachable.
Defined.

(** C7: when the request for the URL at the head of the frontier raises or
    answers with a status other than 200, the turn ends without raising,
    with the URL marked visited, the result unchanged and the rest of the
    frontier left to be processed by the following turns; the URL is in no
    result of the crawl, and no URL is ever requested twice. *)
Theorem failed_fetch_is_skipped `{Library} (start_url : string) (max_pages : Z)
    (allowed_path_prefix : option string) (scheme netloc : string)
    (st : crawl_state) (url : string) (rest : list string) :
  urlparse start_url = Some (scheme, netloc) ->
  reachable start_url max_pages allowed_path_prefix st ->
  to_visit st = url :: rest ->
  fetched_ok url = false ->
  (exists st',
     crawl_body netloc (scheme +:+ "://" +:+ netloc) allowed_path_prefix st = Ok st' /\
     to_visit st' = rest /\
     visited st' = {[url]} ∪ visited st /\
     pages st' = pages st /\
     (loop_cond max_pages st = true ->
      reachable start_url max_pages allowed_path_prefix st' /\
      forall fuel,
        crawl_loop netloc (scheme +:+ "://" +:+ netloc) max_pages
                   allowed_path_prefix (S fuel) st
        = crawl_loop netloc (scheme +:+ "://" +:+ netloc) max_pages
                     allowed_path_prefix fuel st')) /\
  (forall st2, reachable start_url max_pages allowed_path_prefix st2 ->
     (url ∉ keys (pages st2)) /\ NoDup (requests st2)) /\
  (forall pgs, crawl_docs start_url max_pages allowed_path_prefix = Some (Ok pgs) ->
     url ∉ keys pgs).
Proof.
  intros Hparse Hst Hq Hfail.
  assert (forall st2, reachable start_url max_pages allowed_path_prefix st2 ->
            (url ∉ keys (pages st2)) /\ NoDup (requests st2)) as Hnever.
  { intros st2 Hst2. pose proof (reachable_log_inv _ _ _ st2 Hst2) as Hlog.
    split; [|apply Hlog]. intros [_ Hok]%log_inv_keys; [|done]. congruence. }
  split; [|split; [done|]].
  - assert (url ∉ visited st) as Hv.
    { apply (reachable_frontier_inv _ _ _ st Hst). rewrite Hq. by left. }
    assert (exists st',
              crawl_body netloc (scheme +:+ "://" +:+ netloc) allowed_path_prefix st
              = Ok st' /\ to_visit st' = rest /\
              visited st' = {[url]} ∪ visited st /\ pages st' = pages st)
      as (st' & Hbody & Hrest & Hvis & Hpages).
    { unfold crawl_body. rewrite Hq. cbn [visited].
      rewrite bool_decide_eq_false_2 by done.
      destruct (negb (is_same_domain netloc url)); [by eexists|].
      destruct (_ && _); [by eexists|].
      unfold fetched_ok in Hfail.
      destruct (SESSION_get url) as [|status_code text]; [by eexists|].
      rewrite Hfail. by eexists. }
    exists st'. do 4 (split; [done|]). intros Hcond.
    split; [by eapply reach_body|].
    intros fuel. cbn [crawl_loop]. by rewrite Hcond, Hbody.
  - intros pgs (st2 & Hst2 & _ & <-)%crawl_docs_pages. by apply Hnever.
Qed.

Lemma failed_fetch_is_skipped_witness :
  to_visit Demo.after_home
  = ["https://docs.example.com/nav"; Demo.guide_url; Demo.missing_url]
  /\ "https://docs.example.com/nav" ∉ keys (pages Demo.final).
Proof.
  split; [vm_compute; reflexivity|].
  apply (proj1 (proj2
    (@failed_fetch_is_skipped Demo.site Demo.home_url 10 None
       "https" "docs.example.com" Demo.after_home
       "https://docs.example.com/nav" [Demo.guide_url; Demo.missing_url]
       eq_refl demo_after_home_reachable
       ltac:(vm_compute; reflexivity) ltac:(vm_compute; reflexivity)))
    Demo.final demo_final_reachable).
Defined.



(** * Further properties of the code *)

(** ** More on strings *)

Lemma append_cons c a b : String c a +:+ b = String c (a +:+ b).
Proof. reflexivity. Qed.

Lemma append_nil_r s : s +:+ "" = s.
Proof. induction s as [|c s IH]; [done|]. by rewrite append_cons, IH. Qed.

Lemma append_assoc a b c : (a +:+ b) +:+ c = a +:+ (b +:+ c).
Proof. induction a as [|x a IH]; [done|]. by rewrite !append_cons, IH. Qed.

Lemma rev_app_spec s acc : String.rev_app s acc = String.rev s +:+ acc.
Proof.
  unfold String.rev. revert acc. induction s as [|c s IH]; intros acc; [done|].
  simpl. rewrite (IH (String c acc)), (IH (String c "")), append_assoc. done.
Qed.

Lemma rev_cons c s : String.rev (String c s) = String.rev s +:+ String c "".
Proof. unfold String.rev at 1. simpl. apply rev_app_spec. Qed.

Lemma rev_append a b : String.rev (a +:+ b) = String.rev b +:+ String.rev a.
Proof.
  induction a as [|c a IH]; [by rewrite append_nil_r|].
  by rewrite append_cons, !rev_cons, IH, append_assoc.
Qed.

Lemma rev_involutive s : String.rev (String.rev s) = s.
Proof.
  induction s as [|c s IH]; [done|]. by rewrite rev_cons, rev_append, IH.
Qed.

Lemma prefix_append p t : String.prefix p (p +:+ t) = true.
Proof.
  induction p as [|c p IH]; [by destruct t|].
  rewrite append_cons. simpl. by destruct (ascii_dec c c).
Qed.

Lemma endswith_append s suffix : Py.endswith (s +:+ suffix) suffix = true.
Proof. unfold Py.endswith. rewrite rev_append. apply prefix_append. Qed.

Lemma lower_append a b : Py.lower (a +:+ b) = Py.lower a +:+ Py.lower b.
Proof. induction a as [|c a IH]; [done|]. by rewrite !append_cons; simpl; rewrite IH. Qed.

Lemma take_short n s : (String.length s <= n)%nat -> Py.take n s = s.
Proof.
  unfold Py.take. revert s. induction n as [|n IH]; intros [|c s]; simpl; try done; try lia.
  intros Hle. f_equal. apply IH. lia.
Qed.

Lemma sub_unsafe_go_fixes_safe b s :
  all_chars Re.safe_char s -> Re.sub_unsafe_go b s = s.
Proof.
  revert b. induction s as [|c s IH]; intros b; simpl; [done|].
  intros [-> Hs]%all_chars_cons. f_equal. auto.
Qed.

Lemma sub_unsafe_go_run s :
  (forall c, c ∈ list_ascii_of_string s -> Re.safe_char c = false) ->
  Re.sub_unsafe_go true s = "".
Proof.
  induction s as [|c s IH]; simpl; [done|]. intros Hs.
  rewrite (Hs c) by left. apply IH. intros d Hd. apply Hs. by right.
Qed.

Lemma before_hash_append s frag :
  fragment_free s = true -> Py.before_hash (s +:+ "#" +:+ frag) = s.
Proof.
  induction s as [|c s IH]; [done|]. rewrite append_cons. simpl.
  destruct (Ascii.eqb c "#"); simpl; [done|]. intros Hs. by rewrite IH.
Qed.

(** ** Link normalizer, continued *)

(** X1: a fragment never changes what a link normalizes to: for a
    fragment-free [s], the link [s#frag] normalizes as [s] does; and the
    link that is only a fragment, [#frag], is not dropped but resolved as
    the empty reference. *)
Theorem normalize_link_drops_fragment `{Library} (base s frag : string) :
  fragment_free s = true ->
  normalize_link base (s +:+ "#" +:+ frag)
  = if Py.truthy s then normalize_link base s
    else match urljoin base "" with
         | Some u => Ok (Some u)
         | None => Raises
         end.
Proof.
  intros Hs. unfold normalize_link at 1. rewrite before_hash_append by done.
  destruct s as [|c s]; [done|].
  rewrite append_cons. cbn [Py.truthy negb].
  unfold normalize_link. cbn [Py.truthy negb]. by rewrite before_hash_fragment_free.
Qed.

Lemma normalize_link_drops_fragment_witness :
  @normalize_link Demo.site Demo.home_url "/missing#top"
  = @normalize_link Demo.site Demo.home_url "/missing".
Proof.
  apply (@normalize_link_drops_fragment Demo.site Demo.home_url "/missing" "top").
  reflexivity.
Defined.

Lemma prefix_split p s : String.prefix p s = true -> exists t, s = p +:+ t.
Proof.
  revert s. induction p as [|c p IH]; intros s; [by exists s|].
  destruct s as [|c' s]; simpl; [done|].
  destruct (ascii_dec c c') as [->|]; [|done].
  intros [t ->]%IH. by exists t.
Qed.

Lemma endswith_split s suffix :
  Py.endswith s suffix = true -> exists t, s = t +:+ suffix.
Proof.
  unfold Py.endswith. intros [t Ht]%prefix_split. exists (String.rev t).
  rewrite <-(rev_involutive s), Ht, rev_append. by rewrite rev_involutive.
Qed.

Lemma lower_split h x y :
  Py.lower h = x +:+ y -> exists a b, h = a +:+ b /\ Py.lower a = x /\ Py.lower b = y.
Proof.
  revert h. induction x as [|c x IH]; intros h Hh.
  - by exists "", h.
  - rewrite append_cons in Hh. destruct h as [|c' h]; [done|].
    simpl in Hh. injection Hh as Hc Hh.
    apply IH in Hh as (a & b & -> & Ha & Hb).
    exists (String c' a), b. simpl. by rewrite Hc, Ha.
Qed.

(** Lower-casing only ever changes a letter into a lower-case letter. *)
Lemma lower_char_fix c d : Py.lower_char c = d -> Py.is_lower d = false -> c = d.
Proof.
  intros <-. destruct c as [[] [] [] [] [] [] [] []]; vm_compute; congruence.
Qed.

Lemma lower_dot b e : Py.lower b = String "." e -> exists b', b = String "." b' /\ Py.lower b' = e.
Proof.
  destruct b as [|c b]; [done|]. simpl. intros [= Hc Hb].
  apply lower_char_fix in Hc; [|done]. subst c. by exists b.
Qed.

(** X2: the media filter looks only at the end of the link and ignores
    case: it matches exactly the links that end in a dot and one of the
    listed extensions, in any mix of upper and lower case, with at most
    one line feed behind it; an extension anywhere else in the link does
    not count. *)
Theorem media_search_matches_suffix (href : string) :
  Re.media_search href = true <->
  exists s ext,
    Py.lower ext ∈ Re.media_exts /\
    (href = s +:+ "." +:+ ext \/ href = s +:+ "." +:+ ext +:+ Py.nl).
Proof.
  unfold Re.media_search. rewrite existsb_exists. split.
  - intros (e & He%list_elem_of_In & [Hend|Hend]%orb_true_iff).
    + apply endswith_split in Hend as [t Ht].
      apply lower_split in Ht as (a & b & -> & _ & Hb).
      change ("." +:+ e) with (String "." e) in Hb.
      apply lower_dot in Hb as (ext & -> & <-).
      exists a, ext. split; [done|]. by left.
    + apply endswith_split in Hend as [t Ht].
      apply lower_split in Ht as (a & b & -> & _ & Hb).
      change ("." +:+ e +:+ Py.nl) with (String "." (e +:+ Py.nl)) in Hb.
      apply lower_dot in Hb as (b' & -> & Hb').
      apply lower_split in Hb' as (ext & n & -> & <- & Hn).
      destruct n as [|c [|c' n]]; try done. simpl in Hn. injection Hn as Hn.
      apply lower_char_fix in Hn; [|done]. subst c.
      exists a, ext. split; [done|]. by right.
  - intros (s & ext & Hext & [->| ->]); exists (Py.lower ext);
      (split; [by apply list_elem_of_In|]); rewrite !lower_append;
      change (Py.lower ".") with "."; change (Py.lower Py.nl) with Py.nl;
      apply orb_true_iff.
    + left. apply endswith_append.
    + right. apply endswith_append.
Qed.

Lemma media_search_matches_suffix_witness :
  Re.media_search "https://docs.example.com/logo.PnG" = true /\
  Re.media_search "https://docs.example.com/logo.png/info" = false.
Proof.
  split; [|reflexivity].
  apply (proj2 (media_search_matches_suffix "https://docs.example.com/logo.PnG")).
  exists "https://docs.example.com/logo", "PnG". split; [|by left].
  vm_compute. do 2 apply list_elem_of_further. apply list_elem_of_here.
Defined.

(** ** Slugs, continued *)

(** X3: the slug leaves a text of at most 60 characters from
    [a-zA-Z0-9_-] as it is, and slugging a slug changes nothing. *)
Theorem safe_id_stable (text : string) :
  (all_chars Re.safe_char text -> (String.length text <= 60)%nat ->
   safe_id text = text) /\
  safe_id (safe_id text) = safe_id text.
Proof.
  assert (forall t, all_chars Re.safe_char t -> (String.length t <= 60)%nat ->
                    safe_id t = t) as Hfix.
  { intros t Hsafe Hlen. unfold safe_id, Re.sub_unsafe.
    rewrite sub_unsafe_go_fixes_safe by done. by apply take_short. }
  split; [apply Hfix|]. apply Hfix.
  - apply take_all_chars, sub_unsafe_go_safe.
  - apply take_length.
Qed.

Lemma safe_id_stable_witness : safe_id "set_up-2" = "set_up-2".
Proof.
  apply (proj1 (safe_id_stable "set_up-2")).
  - intros c Hc. vm_compute in Hc.
    repeat (apply elem_of_cons in Hc as [->|Hc]; [reflexivity|]).
    by apply elem_of_nil in Hc.
  - vm_compute. lia.
Defined.

(** X4: a heading that lacks an id and whose text has no character from
    [a-zA-Z0-9_-] receives [p<i>-] when the text is empty and [p<i>--]
    otherwise, whatever the text is; all such headings of a page share
    their id. *)
Theorem unsafe_heading_text_id (i : nat) (h : node) :
  is_heading h = true -> lacks_id h = true ->
  (forall c, c ∈ list_ascii_of_string (get_text false h) -> Re.safe_char c = false) ->
  get "id" (ensure_id i h)
  = Some ("p" +:+ pretty i +:+ "-"
          +:+ (if Py.truthy (get_text false h) then "-" else "")).
Proof.
  intros Hh Hl Htext. rewrite get_id_ensure_id, Hl by done.
  unfold synth_id, safe_id, Re.sub_unsafe. do 4 f_equal.
  destruct (get_text false h) as [|c t]; [done|]. simpl.
  rewrite (Htext c) by left. rewrite sub_unsafe_go_run; [done|].
  intros d Hd. apply Htext. by right.
Qed.

Lemma unsafe_heading_text_id_witness :
  get "id" (ensure_id 4 (Tag "h2" [] [NavigableString "?!"; NavigableString " ... "]))
  = Some "p4--".
Proof.
  apply (unsafe_heading_text_id 4 (Tag "h2" [] [NavigableString "?!"; NavigableString " ... "])).
  - reflexivity.
  - reflexivity.
  - intros c Hc. vm_compute in Hc.
    repeat (apply elem_of_cons in Hc as [->|Hc]; [reflexivity|]).
    by apply elem_of_nil in Hc.
Defined.

(** ** The id pass, continued *)

Lemma attr_get_set_ne key key' v attrs :
  key' <> key -> attr_get key' (attr_set key v attrs) = attr_get key' attrs.
Proof.
  intros Hne. induction attrs as [|[k w] attrs IH]; simpl.
  - destruct (String.eqb key key') eqn:Hk; [|done].
    apply String.eqb_eq in Hk. congruence.
  - destruct (String.eqb k key) eqn:Hk; simpl; [|by rewrite IH].
    apply String.eqb_eq in Hk as ->.
    destruct (String.eqb key key') eqn:Hk'; [|done].
    apply String.eqb_eq in Hk'. congruence.
Qed.

Lemma get_text_ensure_id b i n : get_text b (ensure_id i n) = get_text b n.
Proof.
  induction n as [s|s|name attrs cs IH] using node_ind; simpl; try done.
  f_equal. rewrite map_map. apply map_ext_Forall. done.
Qed.

Lemma ensure_id_again i j n : ensure_id j (ensure_id i n) = ensure_id i n.
Proof.
  induction n as [s|s|name attrs cs IH] using node_ind; try done.
  cbn [ensure_id].
  set (attrs' := if is_heading (Tag name attrs cs) && lacks_id (Tag name attrs cs)
                 then attr_set "id" (synth_id i (Tag name attrs cs)) attrs else attrs).
  assert (is_heading (Tag name attrs' (map (ensure_id i) cs))
          && lacks_id (Tag name attrs' (map (ensure_id i) cs)) = false) as ->.
  { subst attrs'. unfold lacks_id, get. cbn [tag_attrs].
    change (is_heading (Tag name _ (map (ensure_id i) cs)))
      with (is_heading (Tag name attrs cs)).
    destruct (is_heading (Tag name attrs cs)) eqn:Hh; [|done]. simpl.
    destruct (negb (Py.truthy_opt (attr_get "id" attrs))) eqn:Hl.
    - by rewrite attr_get_set.
    - done. }
  f_equal. rewrite map_map. apply map_ext_Forall. done.
Qed.

(** X5: the id pass changes nothing but the missing ids of headings: the
    text of every node, every attribute other than [id] and every
    non-empty [id] stay as they were; and a second pass, under whatever
    page index, leaves the result of the first as it is. *)
Theorem ensure_heading_ids_stable (i j : nat) (soup : node) :
  ensure_heading_ids j (ensure_heading_ids i soup) = ensure_heading_ids i soup /\
  (forall b n, get_text b (ensure_id i n) = get_text b n) /\
  (forall key n, key <> "id" -> get key (ensure_id i n) = get key n) /\
  (forall n, is_heading n && lacks_id n = false ->
     tag_attrs (ensure_id i n) = tag_attrs n).
Proof.
  split; [|split; [|split]].
  - destruct soup as [s|s|name attrs cs]; try done. simpl. f_equal.
    rewrite map_map. apply map_ext. intros c. apply ensure_id_again.
  - intros b n. apply get_text_ensure_id.
  - intros key n Hkey. destruct n as [s|s|name attrs cs]; try done.
    unfold get. cbn [ensure_id tag_attrs].
    destruct (_ && _); [by apply attr_get_set_ne|done].
  - intros n Hl. destruct n as [s|s|name attrs cs]; try done.
    cbn [ensure_id tag_attrs]. by rewrite Hl.
Qed.

Lemma ensure_heading_ids_stable_witness :
  get "id" (ensure_id 3 (Tag "h2" [("class", "title")] [NavigableString "Set up"]))
  = Some "p3-Set-up" /\
  get "class" (ensure_id 3 (Tag "h2" [("class", "title")] [NavigableString "Set up"]))
  = Some "title" /\
  tag_attrs (ensure_id 3 (Tag "h2" [("id", "setup")] [NavigableString "Set up"]))
  = [("id", "setup")] /\
  ensure_heading_ids 5 (ensure_heading_ids 3 Demo.twice) = ensure_heading_ids 3 Demo.twice.
Proof.
  split; [vm_compute; reflexivity|]. split; [|split].
  - apply (proj1 (proj2 (proj2 (ensure_heading_ids_stable 3 5 Demo.twice)))
             "class" (Tag "h2" [("class", "title")] [NavigableString "Set up"])).
    discriminate.
  - apply (proj2 (proj2 (proj2 (ensure_heading_ids_stable 3 5 Demo.twice)))
             (Tag "h2" [("id", "setup")] [NavigableString "Set up"])).
    reflexivity.
  - apply (proj1 (ensure_heading_ids_stable 3 5 Demo.twice)).
Defined.

(** ** Cleaning *)

Lemma descendants_Tag name attrs cs :
  descendants (Tag name attrs cs) = flat_map (fun c => c :: descendants c) cs.
Proof.
  unfold descendants. simpl. generalize 0%nat.
  induction cs as [|c cs IH]; intros k; simpl; [done|].
  rewrite map_app, map_map, IH. done.
Qed.

Lemma elem_of_descendants_Tag name attrs cs d :
  d ∈ descendants (Tag name attrs cs) <->
  exists c, c ∈ cs /\ (d = c \/ d ∈ descendants c).
Proof.
  rewrite descendants_Tag, list_elem_of_In, in_flat_map.
  setoid_rewrite <-list_elem_of_In. setoid_rewrite elem_of_cons. done.
Qed.

(** What is left below a node after [decompose_all p]: the images of the
    descendants that [p] rejects. *)
Lemma descendants_decompose_all p n d :
  d ∈ descendants (decompose_all p n) ->
  exists d0, d0 ∈ descendants n /\ p d0 = false /\ d = decompose_all p d0.
Proof.
  revert d. induction n as [s|s|name attrs cs IH] using node_ind; intros d; simpl;
    try by intros ?%elem_of_nil.
  rewrite elem_of_descendants_Tag. intros (c' & Hc' & Hd).
  apply list_elem_of_omap in Hc' as (c & Hc & Hkeep).
  destruct (p c) eqn:Hp; [done|]. injection Hkeep as <-.
  destruct Hd as [->|Hd].
  - exists c. split; [|done]. apply elem_of_descendants_Tag. eauto.
  - rewrite Forall_forall in IH. apply (IH c Hc) in Hd as (d0 & Hd0 & Hp0 & ->).
    exists d0. split; [|done]. apply elem_of_descendants_Tag. eauto.
Qed.

Lemma decompose_all_id p n :
  (forall d, d ∈ descendants n -> p d = false) -> decompose_all p n = n.
Proof.
  induction n as [s|s|name attrs cs IH] using node_ind; simpl; try done.
  intros Hfree. f_equal. rewrite Forall_forall in IH.
  assert (forall c, c ∈ cs -> p c = false /\ decompose_all p c = c) as Hcs.
  { intros c Hc. split.
    - apply Hfree, elem_of_descendants_Tag. eauto.
    - apply IH; [done|]. intros d Hd. apply Hfree, elem_of_descendants_Tag. eauto. }
  clear IH Hfree. induction cs as [|c cs IHcs]; simpl; [done|].
  destruct (Hcs c) as [-> ->]; [by left|]. f_equal.
  apply IHcs. intros c' Hc'. apply Hcs. by right.
Qed.

Lemma is_junk_tag_decompose_all p n : is_junk_tag (decompose_all p n) = is_junk_tag n.
Proof. by destruct n. Qed.

Lemma has_class_decompose_all cls p n : has_class cls (decompose_all p n) = has_class cls n.
Proof. by destruct n. Qed.

Section Clean.
Variable q : node -> bool.
Hypothesis q_shape : forall p n, q (decompose_all p n) = q n.

Lemma decompose_all_cleans n d : d ∈ descendants (decompose_all q n) -> q d = false.
Proof. intros (d0 & _ & Hq & ->)%descendants_decompose_all. by rewrite q_shape. Qed.

Lemma decompose_all_keeps_clean p n :
  (forall d, d ∈ descendants n -> q d = false) ->
  forall d, d ∈ descendants (decompose_all p n) -> q d = false.
Proof.
  intros Hfree d (d0 & Hd0 & _ & ->)%descendants_decompose_all.
  rewrite q_shape. auto.
Qed.

Lemma clean_classes_keeps_clean classes n :
  (forall d, d ∈ descendants n -> q d = false) ->
  forall d,
    d ∈ descendants (fold_left (fun f cls => decompose_all (has_class cls) f) classes n) ->
    q d = false.
Proof.
  revert n. induction classes as [|cls classes IH]; intros n Hfree; simpl; [done|].
  apply IH. by apply decompose_all_keeps_clean.
Qed.

Lemma clean_classes_shape classes n :
  q (fold_left (fun f cls => decompose_all (has_class cls) f) classes n) = q n.
Proof.
  revert n. induction classes as [|cls classes IH]; intros n; simpl; [done|].
  by rewrite IH, q_shape.
Qed.

End Clean.

Lemma clean_classes_cleans classes n cls d :
  cls ∈ classes ->
  d ∈ descendants (fold_left (fun f c => decompose_all (has_class c) f) classes n) ->
  has_class cls d = false.
Proof.
  revert n. induction classes as [|c classes IH]; intros n; simpl;
    [by intros ?%elem_of_nil|].
  intros [->|Hin]%elem_of_cons; [|by apply IH].
  apply clean_classes_keeps_clean.
  - intros p m. apply has_class_decompose_all.
  - apply decompose_all_cleans. intros p m. apply has_class_decompose_all.
Qed.

Lemma clean_classes_root classes name attrs cs :
  exists cs',
    fold_left (fun f c => decompose_all (has_class c) f) classes (Tag name attrs cs)
    = Tag name attrs cs'.
Proof.
  revert cs. induction classes as [|c classes IH]; intros cs; simpl; eauto.
Qed.

Lemma clean_classes_descendants classes n d :
  d ∈ descendants (fold_left (fun f c => decompose_all (has_class c) f) classes n) ->
  exists d0, d0 ∈ descendants n /\
    d = fold_left (fun f c => decompose_all (has_class c) f) classes d0.
Proof.
  revert n. induction classes as [|c classes IH]; intros n; simpl; [eauto|].
  intros (d1 & Hd1 & ->)%IH.
  apply descendants_decompose_all in Hd1 as (d0 & Hd0 & _ & ->). eauto.
Qed.

Lemma clean_classes_id classes n :
  (forall cls d, cls ∈ classes -> d ∈ descendants n -> has_class cls d = false) ->
  fold_left (fun f c => decompose_all (has_class c) f) classes n = n.
Proof.
  induction classes as [|c classes IH]; simpl; [done|]. intros Hfree.
  rewrite decompose_all_id.
  - apply IH. intros cls d Hcls. apply Hfree. by right.
  - intros d. apply Hfree. by left.
Qed.

Lemma is_junk_false n :
  is_junk n = false <->
  is_junk_tag n = false /\ forall cls, cls ∈ junk_classes -> has_class cls n = false.
Proof.
  unfold is_junk. rewrite orb_false_iff. apply and_iff_compat_l.
  split.
  - intros Hex cls Hcls. destruct (has_class cls n) eqn:Hc; [|done].
    rewrite <-Hex. symmetry. apply existsb_exists. exists cls.
    split; [by apply list_elem_of_In|done].
  - intros Hall. apply not_true_is_false. intros (cls & Hcls & Hc)%existsb_exists.
    rewrite Hall in Hc by (by apply list_elem_of_In). done.
Qed.

Lemma is_junk_clean n : is_junk (clean_html_fragment n) = is_junk n.
Proof.
  unfold is_junk, clean_html_fragment. f_equal.
  - rewrite (clean_classes_shape is_junk_tag)
      by (intros p m; apply is_junk_tag_decompose_all).
    apply is_junk_tag_decompose_all.
  - generalize junk_classes at 2 3. intros l.
    induction l as [|cls l IH]; cbn [existsb]; [done|]. f_equal; [|done].
    rewrite (clean_classes_shape (has_class cls))
      by (intros p m; apply has_class_decompose_all).
    apply has_class_decompose_all.
Qed.

Lemma clean_html_fragment_no_junk fragment d :
  d ∈ descendants (clean_html_fragment fragment) -> is_junk d = false.
Proof.
  intros Hd. apply is_junk_false. split.
  - revert d Hd. apply clean_classes_keeps_clean.
    + intros p m. apply is_junk_tag_decompose_all.
    + apply decompose_all_cleans. intros p m. apply is_junk_tag_decompose_all.
  - intros cls Hcls. by eapply clean_classes_cleans.
Qed.

(** X6: after cleaning, nothing below the root of the fragment is a
    script, style, nav, form, footer, header or noscript element or
    carries one of the listed classes; the root itself is never removed
    or changed, whatever its own tag and classes are. *)
Theorem clean_html_fragment_removes_junk (fragment : node) :
  (forall d, d ∈ descendants (clean_html_fragment fragment) -> is_junk d = false) /\
  (forall name attrs cs,
     fragment = Tag name attrs cs ->
     exists cs', clean_html_fragment fragment = Tag name attrs cs').
Proof.
  split; [apply clean_html_fragment_no_junk|].
  intros name attrs cs ->. apply clean_classes_root.
Qed.

Lemma clean_html_fragment_removes_junk_witness :
  exists cs',
    clean_html_fragment
      (Tag "nav" [("class", "sidebar")] [Tag "nav" [] []; NavigableString "kept"])
    = Tag "nav" [("class", "sidebar")] cs'.
Proof.
  apply (proj2 (clean_html_fragment_removes_junk
                  (Tag "nav" [("class", "sidebar")]
                       [Tag "nav" [] []; NavigableString "kept"]))
               "nav" [("class", "sidebar")]
               [Tag "nav" [] []; NavigableString "kept"]).
  reflexivity.
Defined.

(** X7: cleaning only removes: every node left below the root is the
    cleaned form of a node that was below it before; a fragment without
    junk below its root comes back unchanged; and cleaning twice is
    cleaning once. *)
Theorem clean_html_fragment_only_removes (fragment : node) :
  (forall d, d ∈ descendants (clean_html_fragment fragment) ->
     exists d0, d0 ∈ descendants fragment /\ is_junk d0 = false /\
                d = clean_html_fragment d0) /\
  ((forall d, d ∈ descendants fragment -> is_junk d = false) ->
   clean_html_fragment fragment = fragment) /\
  clean_html_fragment (clean_html_fragment fragment) = clean_html_fragment fragment.
Proof.
  assert (forall f, (forall d, d ∈ descendants f -> is_junk d = false) ->
                    clean_html_fragment f = f) as Hid.
  { intros f Hfree. unfold clean_html_fragment. rewrite decompose_all_id.
    - apply clean_classes_id. intros cls d Hcls Hd.
      by apply (proj2 (proj1 (is_junk_false d) (Hfree d Hd))).
    - intros d Hd. by apply (proj1 (is_junk_false d) (Hfree d Hd)). }
  split; [|split; [apply Hid|]].
  - intros d Hd. pose proof (clean_html_fragment_no_junk fragment d Hd) as Hj.
    unfold clean_html_fragment in Hd.
    apply clean_classes_descendants in Hd as (d1 & Hd1 & ->).
    apply descendants_decompose_all in Hd1 as (d0 & Hd0 & Hp & ->).
    exists d0. split; [done|]. split; [|done].
    change (fold_left _ junk_classes (decompose_all is_junk_tag d0))
      with (clean_html_fragment d0) in Hj.
    by rewrite is_junk_clean in Hj.
  - apply Hid. apply clean_html_fragment_no_junk.
Qed.

Lemma clean_html_fragment_only_removes_witness :
  clean_html_fragment Demo.home_main = Demo.home_main.
Proof.
  apply (proj1 (proj2 (clean_html_fragment_only_removes Demo.home_main))).
  intros d Hd. vm_compute in Hd.
  repeat (apply elem_of_cons in Hd as [->|Hd]; [reflexivity|]).
  by apply elem_of_nil in Hd.
Defined.

(** ** Content extractor, continued *)

Lemma first_candidate_spec soup sels :
  match first_candidate soup sels with
  | Some p =>
      exists pre sel post d,
        sels = (pre ++ sel :: post)%list /\ Forall (no_candidate soup) pre /\
        find_path sel soup = Some p /\ subtree p soup = Some d /\
        sel d = true /\ Py.truthy (get_text true d) = true
  | None => Forall (no_candidate soup) sels
  end.
Proof.
  induction sels as [|sel sels IH]; simpl; [constructor|].
  assert (forall q tag, find_path sel soup = Some q -> subtree q soup = Some tag ->
            Py.truthy (get_text true tag) = false -> no_candidate soup sel) as Hmiss.
  { intros q tag Hq Htag Hempty q' d' Hq' Hd'. congruence. }
  destruct (find_path sel soup) as [q|] eqn:Hq.
  - destruct (find_path_subtree _ _ _ Hq) as (tag & Htag & Hsel). rewrite Htag.
    destruct (Py.truthy (get_text true tag)) eqn:Htext.
    + exists [], sel, sels, tag. repeat split; done.
    + destruct (first_candidate soup sels) as [p|].
      * destruct IH as (pre & sel' & post & d & -> & Hpre & Hrest).
        exists (sel :: pre), sel', post, d. split; [done|].
        split; [constructor; eauto|done].
      * constructor; eauto.
  - assert (no_candidate soup sel) by (intros q d Hq'; congruence).
    destruct (first_candidate soup sels) as [p|].
    + destruct IH as (pre & sel' & post & d & -> & Hpre & Hrest).
      exists (sel :: pre), sel', post, d. split; [done|].
      split; [by constructor|done].
    + by constructor.
Qed.

Lemma head_filter_split {A} (f : A -> bool) l x :
  head (List.filter f l) = Some x <->
  exists pre post,
    l = (pre ++ x :: post)%list /\ f x = true /\ Forall (fun y => f y = false) pre.
Proof.
  split.
  - induction l as [|y l IH]; simpl; [done|]. destruct (f y) eqn:Hy; simpl.
    + intros [= ->]. by exists [], l.
    + intros (pre & post & -> & Hx & Hpre)%IH.
      exists (y :: pre), post. split; [done|]. split; [done|by constructor].
  - intros (pre & post & -> & Hx & Hpre).
    induction Hpre as [|y pre Hy _ IH]; simpl; [by rewrite Hx|by rewrite Hy].
Qed.

(** [find_path] answers with the first node in document order that the
    selector takes. *)
Lemma find_path_first sel soup p :
  find_path sel soup = Some p <-> exists d, first_selected sel soup p d.
Proof.
  unfold find_path, first_selected. split.
  - destruct (head _) as [[q d]|] eqn:Hhead; [|done]. intros [= <-].
    apply head_filter_split in Hhead. eauto.
  - intros (d & Hfirst).
    apply (head_filter_split (fun pd => sel (snd pd)) (walk soup) (p, d)) in Hfirst.
    by rewrite Hfirst.
Qed.

Lemma first_selected_subtree sel soup p d :
  first_selected sel soup p d -> subtree p soup = Some d.
Proof.
  intros (pre & post & Hwalk & _). apply walk_subtree. rewrite Hwalk.
  apply elem_of_app. right. by left.
Qed.

Lemma first_candidate_complete soup pre sel post p d :
  Forall (no_candidate soup) pre ->
  find_path sel soup = Some p -> subtree p soup = Some d ->
  Py.truthy (get_text true d) = true ->
  first_candidate soup (pre ++ sel :: post) = Some p.
Proof.
  intros Hpre Hfind Hd Htext. induction Hpre as [|s pre Hs _ IH]; simpl.
  - by rewrite Hfind, Hd, Htext.
  - destruct (find_path s soup) as [q|] eqn:Hq; [|done].
    destruct (subtree q soup) as [tag|] eqn:Htag; [|done].
    by rewrite (Hs q tag Hq Htag).
Qed.

(** X8: what the extractor chooses.  Each selector, in the order main,
    article, div[role=main], div[class*=content], div[class*=main-content],
    div[id*=content], stands for its first match in document order only;
    the extractor answers with the first match of the first selector whose
    first match has text after stripping, and this determines its answer:
    a later match of an earlier selector never counts.  When no selector
    has such a first match it answers with the first body element, and
    with the document itself when there is no body.  In particular the
    first [main] element is the answer whenever it has text. *)
Theorem extract_main_html_choice (soup : node) :
  (exists p d,
     extract_main_html soup = Some p /\ subtree p soup = Some d /\
     ((exists pre sel post,
         selectors = (pre ++ sel :: post)%list /\ Forall (no_candidate soup) pre /\
         first_selected sel soup p d /\ Py.truthy (get_text true d) = true)
      \/ (Forall (no_candidate soup) selectors /\
          first_selected (named "body") soup p d)
      \/ (Forall (no_candidate soup) selectors /\
          find_path (named "body") soup = None /\ p = [] /\ d = soup))) /\
  (forall pre sel post p d,
     selectors = (pre ++ sel :: post)%list -> Forall (no_candidate soup) pre ->
     first_selected sel soup p d -> Py.truthy (get_text true d) = true ->
     extract_main_html soup = Some p) /\
  (forall p d,
     first_selected (named "main") soup p d -> Py.truthy (get_text true d) = true ->
     extract_main_html soup = Some p).
Proof.
  assert (forall pre sel post p d,
            selectors = (pre ++ sel :: post)%list -> Forall (no_candidate soup) pre ->
            first_selected sel soup p d -> Py.truthy (get_text true d) = true ->
            extract_main_html soup = Some p) as Hcomplete.
  { intros pre sel post p d Hsels Hpre Hfirst Htext. unfold extract_main_html.
    rewrite Hsels.
    rewrite (first_candidate_complete soup pre sel post p d); try done.
    - apply find_path_first. eauto.
    - by eapply first_selected_subtree. }
  split; [|split; [done|]].
  - unfold extract_main_html.
    pose proof (first_candidate_spec soup selectors) as Hspec.
    destruct (first_candidate soup selectors) as [p|].
    + destruct Hspec as (pre & sel & post & d & Hsels & Hpre & Hfind & Hd & Hsel & Htext).
      exists p, d. split; [done|]. split; [done|]. left. exists pre, sel, post.
      do 2 (split; [done|]). split; [|done].
      apply find_path_first in Hfind as [d' Hfirst].
      pose proof (first_selected_subtree _ _ _ _ Hfirst) as Hd'. congruence.
    + destruct (find_path (named "body") soup) as [q|] eqn:Hbody; simpl.
      * apply find_path_first in Hbody as [d Hfirst].
        exists q, d. split; [done|]. split; [by eapply first_selected_subtree|].
        right. left. done.
      * exists [], soup. split; [done|]. split; [done|]. right. right. done.
  - intros p d Hfirst Htext.
    apply (Hcomplete [] (named "main") (tl selectors) p d); try done.
Qed.

Lemma extract_main_html_choice_witness :
  extract_main_html Demo.by_role = Some [0%nat] /\
  subtree [0%nat] Demo.by_role
  = Some (Tag "div" [("role", "main" +:+ Py.nl)] [NavigableString "Docs"]).
Proof.
  split; [|reflexivity].
  apply (proj1 (proj2 (extract_main_html_choice Demo.by_role))
           [named "main"; named "article"]
           (fun n => named "div" n && attr_is "role" "main" n)
           [ (fun n => named "div" n && attr_contains "class" "content" n);
             (fun n => named "div" n && attr_contains "class" "main-content" n);
             (fun n => named "div" n && attr_contains "id" "content" n) ]
           [0%nat]
           (Tag "div" [("role", "main" +:+ Py.nl)] [NavigableString "Docs"])).
  - reflexivity.
  - repeat constructor; intros q d Hq; vm_compute in Hq; discriminate.
  - exists [], [([0; 0]%nat, NavigableString "Docs");
               ([1%nat], Tag "div" [("id", "content")] [NavigableString "Other"]);
               ([1; 0]%nat, NavigableString "Other")].
    split; [vm_compute; reflexivity|]. split; [reflexivity|constructor].
  - reflexivity.
Defined.

(** ** The recorded pages *)

Lemma subtree_update_at p f n d :
  subtree p n = Some d -> subtree p (update_at p f n) = Some (f d).
Proof.
  revert n. induction p as [|k p IH]; intros n; simpl; [by intros [= ->]|].
  destruct n as [s|s|name attrs cs]; try done.
  destruct (cs !! k) as [c|] eqn:Hc; [|done]. intros Hd.
  rewrite list_lookup_alter_eq, Hc. simpl. auto.
Qed.

Lemma page_record_spec `{Library} url text :
  exists p d,
    extract_main_html (BeautifulSoup text) = Some p /\
    subtree p (BeautifulSoup text) = Some d /\
    page_record url text
    = Some (match find (named "title") (BeautifulSoup text) with
            | Some title_tag => get_text true title_tag
            | None => url
            end,
            str (clean_html_fragment d)).
Proof.
  destruct (extract_main_html_Some (BeautifulSoup text)) as (p & d & Hp & Hd).
  exists p, d. split; [done|]. split; [done|].
  unfold page_record. rewrite Hp. by rewrite (subtree_update_at _ _ _ _ Hd).
Qed.

Lemma process_page_record `{Library} bn sn url text st :
  exists v soup,
    page_record url text = Some v /\
    process_page bn sn url text st
    = after_sleep (discover_links bn sn url (anchors soup)
                                  (visited_add url (pages_set url v st))).
Proof.
  unfold process_page, page_record.
  destruct (extract_main_html_Some (BeautifulSoup text)) as (p & d & -> & _).
  eauto.
Qed.

Lemma elem_of_od_set {V} (k : string) (v : V) d x :
  x ∈ od_set k v d -> x = (k, v) \/ x ∈ d.
Proof.
  induction d as [|[k' v'] d IH]; simpl.
  - intros ->%list_elem_of_singleton. by left.
  - destruct (String.eqb k' k) eqn:Hk.
    + apply String.eqb_eq in Hk as ->.
      intros [->|Hx]%elem_of_cons; [by left|right; by right].
    + intros [->|Hx]%elem_of_cons; [right; by left|].
      destruct (IH Hx); [by left|right; by right].
Qed.

Section CrawlEffects.
Context `{Library}.
Variables (base_netloc scheme_and_netloc : string).
Variable allowed_path_prefix : option string.

Lemma consider_link_crawlable url st raw st' :
  consider_link base_netloc scheme_and_netloc url st raw = Ok st' ->
  st' = st \/
  exists href,
    normalize_link url raw = Ok (Some href) /\ st' = to_visit_append href st /\
    crawlable base_netloc scheme_and_netloc href = true.
Proof.
  unfold consider_link, crawlable.
  destruct (normalize_link url raw) as [[href|]|]; [| |done].
  - destruct (Py.truthy href) eqn:Ht; simpl; [|intros [= <-]; by left].
    destruct (is_same_domain base_netloc href) eqn:Hs; simpl;
      [|intros [= <-]; by left].
    destruct (Re.media_search href) eqn:Hm; simpl; [intros [= <-]; by left|].
    destruct (_ && _ && Py.startswith href scheme_and_netloc) eqn:Hc;
      intros [= <-]; [|by left].
    right. exists href. apply andb_true_iff in Hc as [_ Hp].
    by rewrite Ht, Hs, Hm, Hp.
  - intros [= <-]. by left.
Qed.

Lemma discover_links_crawlable url hrefs st st' :
  discover_links base_netloc scheme_and_netloc url hrefs st = Ok st' ->
  exists new,
    st' = CrawlState (to_visit st ++ new) (visited st) (pages st) (requests st) /\
    forall h, h ∈ new -> crawlable base_netloc scheme_and_netloc h = true.
Proof.
  revert st. induction hrefs as [|raw hrefs IH]; intros st; simpl.
  - intros [= <-]. exists []. rewrite app_nil_r. destruct st.
    split; [done|]. by intros h ?%elem_of_nil.
  - destruct (consider_link _ _ url st raw) as [st1|] eqn:Hlink; [|done].
    intros (new & -> & Hnew)%IH.
    apply consider_link_crawlable in Hlink as [->|(href & _ & -> & Hc)].
    + by exists new.
    + exists (href :: new). simpl. rewrite <-app_assoc. split; [done|].
      intros h [->|Hh]%elem_of_cons; auto.
Qed.

(** Everything one turn of the loop does to the frontier, the request
    log and the result. *)
Lemma crawl_body_effects st st' :
  crawl_body base_netloc scheme_and_netloc allowed_path_prefix st = Ok st' ->
  exists url rest new,
    to_visit st = url :: rest /\ to_visit st' = (rest ++ new)%list /\
    (forall h, h ∈ new -> crawlable base_netloc scheme_and_netloc h = true) /\
    ((requests st' = requests st /\ pages st' = pages st) \/
     (requests st' = (requests st ++ [url])%list /\
      is_same_domain base_netloc url = true /\
      within_prefix allowed_path_prefix url = true /\
      ((pages st' = pages st /\ fetched_ok url = false) \/
       exists text v,
         SESSION_get url = Response 200 text /\ page_record url text = Some v /\
         pages st' = od_set url v (pages st)))).
Proof.
  unfold crawl_body, within_prefix.
  destruct (to_visit st) as [|url rest] eqn:Hq; [done|]. cbn [visited].
  assert (forall s, to_visit s = rest -> requests s = requests st ->
            pages s = pages st ->
            exists url' rest' new,
              url :: rest = url' :: rest' /\ to_visit s = (rest' ++ new)%list /\
              (forall h, h ∈ new -> crawlable base_netloc scheme_and_netloc h = true) /\
              ((requests s = requests st /\ pages s = pages st) \/
               (requests s = (requests st ++ [url'])%list /\
                is_same_domain base_netloc url' = true /\
                negb (Py.truthy_opt allowed_path_prefix
                      && negb (Py.startswith url' (default "" allowed_path_prefix)))
                = true /\
                ((pages s = pages st /\ fetched_ok url' = false) \/
                 exists text v,
                   SESSION_get url' = Response 200 text /\
                   page_record url' text = Some v /\
                   pages s = od_set url' v (pages st))))) as Hquiet.
  { intros s Hs Hr Hp. exists url, rest, []. rewrite app_nil_r.
    split; [done|]. split; [done|]. split; [by intros h ?%elem_of_nil|]. by left. }
  case_bool_decide as Hv; [intros [= <-]; by apply Hquiet|].
  destruct (is_same_domain base_netloc url) eqn:Hsame; simpl;
    [|intros [= <-]; by apply Hquiet].
  destruct (_ && _) eqn:Hprefix; [intros [= <-]; by apply Hquiet|].
  destruct (SESSION_get url) as [|status_code text] eqn:Hget.
  { intros [= <-]. exists url, rest, []. rewrite app_nil_r. simpl.
    split; [done|]. split; [done|]. split; [by intros h ?%elem_of_nil|].
    right. split; [done|]. split; [done|]. split; [by rewrite Hprefix|].
    left. split; [done|]. unfold fetched_ok. by rewrite Hget. }
  destruct (status_code =? 200)%Z eqn:Hstatus; simpl.
  - apply Z.eqb_eq in Hstatus as ->.
    destruct (process_page_record base_netloc scheme_and_netloc url text
                (log_request url (CrawlState rest (visited st) (pages st) (requests st))))
      as (v & soup & Hrec & ->).
    intros (new & -> & Hnew)%after_sleep_Ok%discover_links_crawlable. simpl.
    exists url, rest, new.
    split; [done|]. split; [done|]. split; [done|].
    right. split; [done|]. split; [done|]. split; [by rewrite Hprefix|].
    right. eauto.
  - intros [= <-]. exists url, rest, []. rewrite app_nil_r. simpl.
    split; [done|]. split; [done|]. split; [by intros h ?%elem_of_nil|].
    right. split; [done|]. split; [done|]. split; [by rewrite Hprefix|].
    left. split; [done|]. unfold fetched_ok. by rewrite Hget, Hstatus.
Qed.

End CrawlEffects.

Section RunEffects.
Context `{Library}.
Variables (start_url : string) (max_pages : Z) (allowed_path_prefix : option string).

Local Abbreviation reach := (reachable start_url max_pages allowed_path_prefix).

Lemma reachable_effects_inv scheme netloc st :
  urlparse start_url = Some (scheme, netloc) ->
  reach st ->
  effects_inv start_url netloc (scheme +:+ "://" +:+ netloc) allowed_path_prefix st.
Proof.
  intros Hparse. induction 1 as [|scheme' netloc' st st' _ IH Hparse' _ Hbody].
  - split; simpl; [|by intros u ?%elem_of_nil].
    intros u ->%list_elem_of_singleton. by left.
  - rewrite Hparse in Hparse'. injection Hparse' as <- <-.
    destruct IH as [Hq Hr].
    apply crawl_body_effects in Hbody
      as (url & rest & new & Hto & Hto' & Hnew & Heff).
    rewrite Hto in Hq. split.
    + rewrite Hto'. intros u [Hu|Hu]%elem_of_app; [apply Hq; by right|auto].
    + destruct Heff as [[-> _]|(-> & Hsame & Hpre & _)]; [done|].
      intros u [Hu| ->%list_elem_of_singleton]%elem_of_app; [auto|].
      split; [apply Hq; by left|done].
Qed.

Lemma reachable_pages_inv st : reach st -> pages_inv st.
Proof.
  induction 1 as [|scheme netloc st st' _ IH _ _ Hbody].
  - by intros u v ?%elem_of_nil.
  - apply crawl_body_effects in Hbody as (url & rest & new & _ & _ & _ & Heff).
    destruct Heff as [[_ Hp]|(_ & _ & _ & [[Hp _]|(text & v & Hget & Hrec & Hp)])];
      intros u w; rewrite Hp; try apply IH.
    intros [[= -> ->]|Hin]%elem_of_od_set; [eauto|by apply IH].
Qed.

Lemma reachable_cap_nat st : reach st -> (size (visited st) <= Z.to_nat max_pages)%nat.
Proof.
  induction 1 as [|scheme netloc st st' _ IH _ Hcond Hbody].
  - cbn [crawl_init visited]. rewrite size_empty. lia.
  - apply crawl_body_outcome, visited_outcome_le in Hbody.
    unfold loop_cond in Hcond. apply andb_true_iff in Hcond as [_ Hlt]. lia.
Qed.

End RunEffects.

Lemma crawlable_parts `{Library} bn sn href :
  crawlable bn sn href = true ->
  Py.truthy href = true /\ is_same_domain bn href = true /\
  Re.media_search href = false /\ Py.startswith href sn = true.
Proof.
  unfold crawlable. rewrite !andb_true_iff, negb_true_iff. tauto.
Qed.

(** X9: every record of the crawl result belongs to a page that answered
    200: its title is the stripped text of the page's first title element,
    or the URL when there is none, and its content is the printed form of
    the extractor's choice after cleaning, which holds no junk below its
    root. *)
Theorem recorded_pages_content `{Library} (start_url : string) (max_pages : Z)
    (allowed_path_prefix : option string) (st : crawl_state)
    (u title content : string) :
  reachable start_url max_pages allowed_path_prefix st ->
  (u, (title, content)) ∈ pages st ->
  exists text p d,
    SESSION_get u = Response 200 text /\
    extract_main_html (BeautifulSoup text) = Some p /\
    subtree p (BeautifulSoup text) = Some d /\
    title = match find (named "title") (BeautifulSoup text) with
            | Some title_tag => get_text true title_tag
            | None => u
            end /\
    content = str (clean_html_fragment d) /\
    forall n, n ∈ descendants (clean_html_fragment d) -> is_junk n = false.
Proof.
  intros Hst Hin. apply (reachable_pages_inv _ _ _ st Hst) in Hin as (text & Hget & Hrec).
  destruct (page_record_spec u text) as (p & d & Hp & Hd & Hspec).
  rewrite Hspec in Hrec. injection Hrec as <- <-.
  exists text, p, d. repeat split; try done.
  apply clean_html_fragment_no_junk.
Qed.

Lemma recorded_pages_content_witness :
  exists text p d,
    @SESSION_get Demo.site Demo.home_url = Response 200 text /\
    extract_main_html (@BeautifulSoup Demo.site text) = Some p /\
    subtree p (@BeautifulSoup Demo.site text) = Some d /\
    "Home" = match find (named "title") (@BeautifulSoup Demo.site text) with
             | Some title_tag => get_text true title_tag
             | None => Demo.home_url
             end /\
    Demo.render (Demo.document [Demo.home_main])
    = @str Demo.site (clean_html_fragment d) /\
    forall n, n ∈ descendants (clean_html_fragment d) -> is_junk n = false.
Proof.
  apply (@recorded_pages_content Demo.site Demo.home_url 10 None Demo.final).
  - apply demo_final_reachable.
  - vm_compute. apply list_elem_of_here.
Defined.

(** X10: the crawl never sends a request off the site or outside the
    allowed prefix: every URL it requests, and so every URL of its result,
    is same-site for the start URL's netloc, begins with the allowed
    prefix when one is set, and is the start URL or begins with
    [scheme://netloc]. *)
Theorem requests_stay_on_site `{Library} (start_url : string) (max_pages : Z)
    (allowed_path_prefix : option string) (scheme netloc : string)
    (st : crawl_state) (u : string) :
  urlparse start_url = Some (scheme, netloc) ->
  reachable start_url max_pages allowed_path_prefix st ->
  u ∈ requests st \/ u ∈ keys (pages st) ->
  is_same_domain netloc u = true /\
  within_prefix allowed_path_prefix u = true /\
  (u = start_url \/ Py.startswith u (scheme +:+ "://" +:+ netloc) = true).
Proof.
  intros Hparse Hst Hu.
  assert (u ∈ requests st) as Hreq.
  { destruct Hu as [Hu|Hu]; [done|].
    by apply (log_inv_keys st u (reachable_log_inv _ _ _ st Hst)) in Hu as [Hu _]. }
  destruct (reachable_effects_inv _ _ _ _ _ st Hparse Hst) as [_ Hr].
  destruct (Hr u Hreq) as ([->|Hc] & Hsame & Hpre); repeat split; auto.
  right. by apply crawlable_parts in Hc as (_ & _ & _ & Hc).
Qed.

Lemma requests_stay_on_site_witness :
  @is_same_domain Demo.site "docs.example.com" Demo.guide_url = true /\
  within_prefix None Demo.guide_url = true /\
  (Demo.guide_url = Demo.home_url \/
   Py.startswith Demo.guide_url ("https" +:+ "://" +:+ "docs.example.com") = true).
Proof.
  apply (@requests_stay_on_site Demo.site Demo.home_url 10 None
           "https" "docs.example.com" Demo.final Demo.guide_url).
  - reflexivity.
  - apply demo_final_reachable.
  - right. vm_compute. apply list_elem_of_further, list_elem_of_here.
Defined.

Lemma reachable_counts `{Library} start_url max_pages allowed_path_prefix st :
  reachable start_url max_pages allowed_path_prefix st ->
  (length (pages st) <= length (requests st))%nat /\
  (length (requests st) <= size (visited st))%nat /\
  (size (visited st) <= Z.to_nat max_pages)%nat.
Proof.
  intros Hst. destruct (reachable_log_inv _ _ _ st Hst) as (Hnd & Hvis & Hkeys).
  split; [|split].
  - replace (length (pages st)) with (length (keys (pages st)))
      by (unfold keys; by rewrite length_map).
    rewrite Hkeys. apply List.filter_length_le.
  - by apply length_le_size.
  - by eapply reachable_cap_nat.
Qed.

(** X11: the cap bounds the requests too: in every state of a crawl the
    number of requests sent is at most the number of visited URLs, which
    is at most [max_pages] (none at all for a cap that is not positive),
    and the result never has more records than requests were sent. *)
Theorem requests_bounded_by_cap `{Library} (start_url : string) (max_pages : Z)
    (allowed_path_prefix : option string) (st : crawl_state) :
  reachable start_url max_pages allowed_path_prefix st ->
  (length (pages st) <= length (requests st))%nat /\
  (length (requests st) <= size (visited st))%nat /\
  (size (visited st) <= Z.to_nat max_pages)%nat.
Proof. apply reachable_counts. Qed.

Lemma requests_bounded_by_cap_witness :
  (length (pages Demo.final) <= length (requests Demo.final))%nat /\
  (length (requests Demo.final) <= size (visited Demo.final))%nat /\
  (size (visited Demo.final) <= Z.to_nat 10)%nat.
Proof.
  apply (@requests_bounded_by_cap Demo.site Demo.home_url 10 None Demo.final).
  apply demo_final_reachable.
Defined.

(** X12: no media link is ever followed: every URL of the frontier, of the
    request log and of the result, the start URL apart, fails the
    extension test of the link loop. *)
Theorem media_links_never_followed `{Library} (start_url : string) (max_pages : Z)
    (allowed_path_prefix : option string) (scheme netloc : string)
    (st : crawl_state) (u : string) :
  urlparse start_url = Some (scheme, netloc) ->
  reachable start_url max_pages allowed_path_prefix st ->
  u ∈ to_visit st \/ u ∈ requests st \/ u ∈ keys (pages st) ->
  u = start_url \/ Re.media_search u = false.
Proof.
  intros Hparse Hst Hu.
  destruct (reachable_effects_inv _ _ _ _ _ st Hparse Hst) as [Hq Hr].
  assert (u = start_url \/
          crawlable netloc (scheme +:+ "://" +:+ netloc) u = true) as [->|Hc].
  { destruct Hu as [Hu|[Hu|Hu]]; [by apply Hq|by apply Hr|].
    apply (log_inv_keys st u (reachable_log_inv _ _ _ st Hst)) in Hu as [Hu _].
    by apply Hr. }
  - by left.
  - right. by apply crawlable_parts in Hc as (_ & _ & Hc & _).
Qed.

Lemma media_links_never_followed_witness :
  Demo.guide_url = Demo.home_url \/ Re.media_search Demo.guide_url = false.
Proof.
  apply (@media_links_never_followed Demo.site Demo.home_url 10 None
           "https" "docs.example.com" Demo.after_home Demo.guide_url).
  - reflexivity.
  - apply demo_after_home_reachable.
  - left. vm_compute. apply list_elem_of_further, list_elem_of_here.
Defined.

(** X13: the test [if url in visited] never succeeds: the URL popped from
    the frontier is always new, so every turn of the loop that does not
    raise marks exactly one more URL as visited. *)
Theorem each_turn_visits_one_url `{Library} (start_url : string) (max_pages : Z)
    (allowed_path_prefix : option string) (st : crawl_state)
    (url : string) (rest : list string) :
  reachable start_url max_pages allowed_path_prefix st ->
  to_visit st = url :: rest ->
  (url ∉ visited st) /\
  forall base_netloc scheme_and_netloc st',
    crawl_body base_netloc scheme_and_netloc allowed_path_prefix st = Ok st' ->
    visited st' = {[url]} ∪ visited st /\
    size (visited st') = S (size (visited st)).
Proof.
  intros Hst Hq. pose proof (reachable_frontier_inv _ _ _ st Hst) as Hinv.
  assert (url ∉ visited st) as Hv.
  { apply Hinv. rewrite Hq. by left. }
  split; [done|]. intros bn sn st' Hbody. apply crawl_body_outcome in Hbody.
  split; [|by eapply visited_outcome_fresh].
  destruct Hbody as [url' rest' Hq' Hv' ->|url' rest' Hq' _ ->|url' rest' Hq' _ _ ->
                    |url' rest' v new Hq' _ _ -> _ _];
    rewrite Hq in Hq'; injection Hq' as <- <-; done.
Qed.

Lemma each_turn_visits_one_url_witness :
  "https://docs.example.com/nav" ∉ visited Demo.after_home.
Proof.
  apply (@each_turn_visits_one_url Demo.site Demo.home_url 10 None Demo.after_home
           "https://docs.example.com/nav" [Demo.guide_url; Demo.missing_url]).
  - apply demo_after_home_reachable.
  - vm_compute. reflexivity.
Defined.

(** X14: the crawl always comes to an end, and when it returns, either
    the frontier is empty or exactly [max_pages] URLs have been visited
    (none when the cap is not positive). *)
Theorem crawl_stops_at_cap_or_exhaustion `{Library} (start_url : string)
    (max_pages : Z) (allowed_path_prefix : option string) :
  (exists r, crawl_run start_url max_pages allowed_path_prefix = Some r) /\
  (forall st,
     crawl_run start_url max_pages allowed_path_prefix = Some (Ok st) ->
     to_visit st = [] \/ size (visited st) = Z.to_nat max_pages).
Proof.
  split; [apply crawl_run_returns|].
  intros st [Hst Hcond]%crawl_run_end.
  pose proof (reachable_cap_nat _ _ _ st Hst) as Hcap.
  unfold loop_cond in Hcond. destruct (to_visit st); [by left|right].
  simpl in Hcond. apply Z.ltb_ge in Hcond. lia.
Qed.

Lemma crawl_stops_at_cap_or_exhaustion_witness :
  to_visit Demo.final = [] \/ size (visited Demo.final) = Z.to_nat 10.
Proof.
  apply (proj2 (@crawl_stops_at_cap_or_exhaustion Demo.site Demo.home_url 10 None)).
  vm_compute. reflexivity.
Defined.

Lemma crawl_run_start_outside_prefix `{Library} start_url max_pages prefix
    scheme netloc :
  urlparse start_url = Some (scheme, netloc) ->
  Py.truthy prefix = true ->
  Py.startswith start_url prefix = false ->
  exists st,
    crawl_run start_url max_pages (Some prefix) = Some (Ok st) /\
    pages st = [] /\ requests st = [].
Proof.
  intros Hparse Hprefix Hout.
  unfold crawl_run. rewrite Hparse.
  destruct (0 <? max_pages)%Z eqn:Hpos.
  - pose proof (proj1 (Z.ltb_lt _ _) Hpos) as Hlt.
    destruct (Z.to_nat max_pages) as [|fuel] eqn:Hfuel; [lia|].
    cbn [crawl_loop]. unfold loop_cond at 1. cbn [crawl_init to_visit visited].
    rewrite size_empty. change (Z.of_nat 0) with 0%Z. rewrite Hpos. cbn [andb].
    unfold crawl_body. cbn [crawl_init to_visit visited pages requests].
    rewrite bool_decide_eq_false_2 by set_solver.
    cbn [Py.truthy_opt default from_option id]. rewrite Hprefix, Hout. cbn [negb andb].
    exists (visited_add start_url (CrawlState [] ∅ [] [])).
    split; [|done].
    destruct (negb (is_same_domain netloc start_url)); by destruct fuel.
  - exists (crawl_init start_url). split; [|done].
    assert (loop_cond max_pages (crawl_init start_url) = false) as Hcond.
    { unfold loop_cond. cbn [crawl_init to_visit visited].
      rewrite size_empty. change (Z.of_nat 0) with 0%Z. by rewrite Hpos. }
    destruct (Z.to_nat max_pages); simpl; by rewrite Hcond.
Qed.

(** X15: when an allowed prefix is set and the start URL does not begin
    with it, a crawl whose start URL [urlparse] accepts rejects the start
    URL before any request, discovers nothing and returns an empty result,
    whatever the site and the cap are; a start URL that [urlparse] rejects
    makes [crawl_docs] raise before its loop, with or without a prefix. *)
Theorem start_outside_prefix_yields_nothing `{Library} (start_url : string)
    (max_pages : Z) (prefix : string) :
  Py.truthy prefix = true ->
  Py.startswith start_url prefix = false ->
  match urlparse start_url with
  | Some _ =>
      (exists st,
         crawl_run start_url max_pages (Some prefix) = Some (Ok st) /\
         pages st = [] /\ requests st = []) /\
      crawl_docs start_url max_pages (Some prefix) = Some (Ok [])
  | None =>
      forall allowed_path_prefix,
        crawl_docs start_url max_pages allowed_path_prefix = Some Raises
  end.
Proof.
  intros Hprefix Hout. destruct (urlparse start_url) as [[scheme netloc]|] eqn:Hparse.
  - destruct (crawl_run_start_outside_prefix start_url max_pages prefix scheme netloc
                Hparse Hprefix Hout) as (st & Hrun & Hpages & Hreq).
    split; [eauto|]. unfold crawl_docs. by rewrite Hrun, Hpages.
  - intros allowed_path_prefix. unfold crawl_docs, crawl_run. by rewrite Hparse.
Qed.

Lemma start_outside_prefix_yields_nothing_witness :
  @crawl_docs Demo.site Demo.home_url 10 (Some "https://docs.example.com/guide")
  = Some (Ok []).
Proof.
  apply (@start_outside_prefix_yields_nothing Demo.site Demo.home_url 10
           "https://docs.example.com/guide");
    reflexivity.
Defined.

(** ** No-crawl mode and [main] *)

Lemma keys_od_set_known {V} (k : string) (v : V) d :
  k ∈ keys d -> keys (od_set k v d) = keys d.
Proof.
  induction d as [|[k' v'] d IH]; simpl; [by intros ?%elem_of_nil|].
  destruct (String.eqb k' k) eqn:Hk; simpl; [done|].
  intros [->|Hin]%elem_of_cons; [by rewrite String.eqb_refl in Hk|].
  f_equal. auto.
Qed.

Lemma first_occurrences_ext seen1 seen2 l :
  (forall x, x ∈ seen1 <-> x ∈ seen2) ->
  first_occurrences seen1 l = first_occurrences seen2 l.
Proof.
  revert seen1 seen2. induction l as [|x l IH]; intros seen1 seen2 Hseen; simpl; [done|].
  rewrite (bool_decide_ext _ _ (Hseen x)). case_bool_decide; [by apply IH|].
  f_equal. apply IH. intros y. rewrite !elem_of_cons, Hseen. done.
Qed.



Section NoCrawl.
Context `{Library}.

Lemma fetch_listed_page_cases acc u :
  (fetched_ok u = false /\ fetch_listed_page acc u = acc) \/
  (fetched_ok u = true /\
   exists text v,
     SESSION_get u = Response 200 text /\ page_record u text = Some v /\
     fetch_listed_page acc u = od_set u v acc).
Proof.
  unfold fetch_listed_page, fetched_ok.
  destruct (SESSION_get u) as [|status_code text]; [by left|].
  destruct (status_code =? 200)%Z eqn:Hs; simpl; [|by left].
  apply Z.eqb_eq in Hs as ->.
  destruct (page_record_spec u text) as (p & d & _ & _ & Hrec). rewrite Hrec.
  right. split; [done|]. eexists _, _. split; [done|]. split; [exact Hrec|done].
Qed.

Lemma fetch_listed_keys urls acc :
  keys (fold_left fetch_listed_page urls acc)
  = (keys acc ++ first_occurrences (keys acc) (List.filter fetched_ok urls))%list.
Proof.
  revert acc. induction urls as [|u urls IH]; intros acc; simpl;
    [by rewrite app_nil_r|].
  rewrite IH.
  destruct (fetch_listed_page_cases acc u)
    as [[-> ->]|(-> & text & v & _ & _ & ->)]; [done|]. simpl.
  case_bool_decide as Hu.
  - by rewrite keys_od_set_known.
  - rewrite keys_od_set_fresh, <-app_assoc by done. simpl. do 2 f_equal.
    apply first_occurrences_ext. intros x.
    rewrite elem_of_app, !elem_of_cons, elem_of_nil. tauto.
Qed.


End NoCrawl.



Lemma crawl_docs_nonpositive_cap `{Library} start_url max_pages prefix scheme netloc :
  urlparse start_url = Some (scheme, netloc) ->
  (max_pages <= 0)%Z ->
  crawl_docs start_url max_pages prefix = Some (Ok []).
Proof.
  intros Hparse Hcap. unfold crawl_docs, crawl_run. rewrite Hparse.
  assert (loop_cond max_pages (crawl_init start_url) = false) as Hcond.
  { unfold loop_cond. cbn [crawl_init to_visit visited]. rewrite size_empty.
    apply andb_false_iff. right. apply Z.ltb_ge. lia. }
  destruct (Z.to_nat max_pages); simpl; by rewrite Hcond.
Qed.

(** X17: [main] hands a book to the renderer only when at least one page
    was collected: the book is then the assembled document of exactly the
    collected pages, with one table-of-contents entry per page; in crawl
    mode this needs a cap of at least one and the pages number at most
    the cap, in no-crawl mode they are the pages fetched from the list. *)
Theorem main_saves_only_nonempty_books `{Library} (args : cli_args)
    (urls_lines : option (list string)) (now html_str out base_url : string) :
  main args urls_lines now = SavePdf html_str out base_url ->
  exists pgs,
    pgs <> [] /\
    collect_pages args urls_lines = inr pgs /\
    html_str = build_book_html pgs (arg_book_title args) (arg_author args) now /\
    out = arg_output args /\ base_url = arg_start_url args /\
    length (toc_entries pgs) = length pgs /\
    (arg_no_crawl args = false ->
     (1 <= Z.of_nat (length pgs) <= arg_max_pages args)%Z) /\
    (arg_no_crawl args = true ->
     exists lines, urls_lines = Some lines /\ pgs = fetch_listed (read_urls lines)).
Proof.
  unfold main. destruct (collect_pages args urls_lines) as [o|pgs] eqn:Hcollect.
  { intros ->. unfold collect_pages in Hcollect. repeat case_match; congruence. }
  destruct pgs as [|page pgs]; [done|]. intros [= <- <- <-].
  exists (page :: pgs). split; [done|]. do 4 (split; [done|]).
  split; [|split].
  - unfold toc_entries. rewrite length_map. apply chapters_from_length.
  - intros Hmode. unfold collect_pages in Hcollect. rewrite Hmode in Hcollect.
    destruct (crawl_docs _ _ _) as [[pgs'|]|] eqn:Hcrawl; try done.
    injection Hcollect as ->.
    apply crawl_docs_pages in Hcrawl as (st & Hst & _ & Hpages).
    destruct (reachable_counts _ _ _ st Hst) as (H1 & H2 & H3).
    rewrite Hpages in H1. simpl in *. lia.
  - intros Hmode. unfold collect_pages in Hcollect. rewrite Hmode in Hcollect.
    destruct (negb _); [done|]. destruct urls_lines as [lines|]; [|done].
    injection Hcollect as <-. eauto.
Qed.

Lemma main_saves_only_nonempty_books_witness :
  exists pgs,
    pgs <> [] /\
    @collect_pages Demo.site
      (CliArgs Demo.home_url "book.pdf" 10 false None "Book" None None) None
    = inr pgs /\
    (1 <= Z.of_nat (length pgs) <= 10)%Z.
Proof.
  destruct (@main_saves_only_nonempty_books Demo.site
              (CliArgs Demo.home_url "book.pdf" 10 false None "Book" None None)
              None "2024-01-01 00:00:00"
              (@build_book_html Demo.site (pages Demo.final) "Book" None
                                "2024-01-01 00:00:00")
              "book.pdf" Demo.home_url)
    as (pgs & Hne & Hcollect & _ & _ & _ & _ & Hcap & _).
  - vm_compute. reflexivity.
  - exists pgs. split; [done|]. split; [done|]. by apply Hcap.
Defined.

(** X18: how [main] ends before the renderer is called.  It exits with
    status 1, without building a book: in no-crawl mode without a URL file
    (no request is made); in no-crawl mode when no listed URL answers 200;
    and in crawl mode, for a start URL that [urlparse] accepts, with a cap
    that is not positive or with an allowed prefix that the start URL does
    not begin with.  For a start URL that [urlparse] rejects, crawl mode
    ends on the uncaught exception of [crawl_docs] instead; and up to the
    call of the renderer, crawl mode ends on an uncaught exception exactly
    when [crawl_docs] raised. *)
Theorem main_exits_without_pages `{Library} (args : cli_args)
    (urls_lines : option (list string)) (now : string) :
  (arg_no_crawl args = true -> Py.truthy_opt (arg_urls_file args) = false ->
   main args urls_lines now = Exit 1) /\
  (forall lines,
     arg_no_crawl args = true -> Py.truthy_opt (arg_urls_file args) = true ->
     urls_lines = Some lines ->
     (forall u, u ∈ read_urls lines -> fetched_ok u = false) ->
     main args urls_lines now = Exit 1) /\
  (arg_no_crawl args = false ->
   (arg_max_pages args <= 0)%Z ->
   main args urls_lines now
   = match urlparse (arg_start_url args) with
     | Some _ => Exit 1
     | None => Uncaught
     end) /\
  (forall prefix,
     arg_no_crawl args = false ->
     arg_allowed_prefix args = Some prefix -> Py.truthy prefix = true ->
     Py.startswith (arg_start_url args) prefix = false ->
     main args urls_lines now
     = match urlparse (arg_start_url args) with
       | Some _ => Exit 1
       | None => Uncaught
       end) /\
  (arg_no_crawl args = false -> urlparse (arg_start_url args) = None ->
   main args urls_lines now = Uncaught) /\
  (arg_no_crawl args = false ->
   (main args urls_lines now = Uncaught <->
    crawl_docs (arg_start_url args) (arg_max_pages args) (arg_allowed_prefix args)
    = Some Raises)).
Proof.
  assert (urlparse (arg_start_url args) = None ->
          crawl_docs (arg_start_url args) (arg_max_pages args) (arg_allowed_prefix args)
          = Some Raises) as Hbad.
  { intros Hparse. unfold crawl_docs, crawl_run. by rewrite Hparse. }
  unfold main, collect_pages. split; [|split; [|split; [|split; [|split]]]].
  - by intros -> ->.
  - intros lines -> -> -> Hfail. simpl.
    assert (keys (fetch_listed (read_urls lines)) = []) as Hkeys.
    { unfold fetch_listed. rewrite fetch_listed_keys. simpl.
      replace (List.filter fetched_ok (read_urls lines)) with (@nil string); [done|].
      symmetry. induction (read_urls lines) as [|u l IH]; simpl; [done|].
      rewrite Hfail by left. apply IH. intros u' Hu'. apply Hfail. by right. }
    by destruct (fetch_listed (read_urls lines)).
  - intros -> Hcap.
    destruct (urlparse (arg_start_url args)) as [[scheme netloc]|] eqn:Hparse.
    + by rewrite (crawl_docs_nonpositive_cap _ _ _ _ _ Hparse Hcap).
    + by rewrite Hbad.
  - intros prefix -> Hallowed Hprefix Hout.
    destruct (urlparse (arg_start_url args)) as [[scheme netloc]|] eqn:Hparse.
    + rewrite Hallowed.
      destruct (crawl_run_start_outside_prefix _ (arg_max_pages args) _ _ _
                  Hparse Hprefix Hout) as (st & Hrun & Hpages & _).
      unfold crawl_docs. by rewrite Hrun, Hpages.
    + by rewrite Hbad.
  - intros -> Hparse. by rewrite Hbad.
  - intros ->.
    destruct (crawl_run_returns (arg_start_url args) (arg_max_pages args)
                (arg_allowed_prefix args)) as [r Hrun].
    unfold crawl_docs. rewrite Hrun. destruct r as [st|]; [|done].
    by destruct (pages st).
Qed.

Lemma main_exits_without_pages_witness :
  @main Demo.site
    (CliArgs Demo.home_url "book.pdf" 10 true (Some "urls.txt") "Book" None None)
    (Some [Demo.missing_url +:+ Py.nl; "  " +:+ Py.nl; "https://docs.example.com/nav"])
    "2024-01-01 00:00:00"
  = Exit 1 /\
  @main Demo.site
    (CliArgs Demo.home_url "book.pdf" 0 false None "Book" None None) None
    "2024-01-01 00:00:00"
  = Exit 1.
Proof.
  split.
  - apply (proj1 (proj2 (@main_exits_without_pages Demo.site
             (CliArgs Demo.home_url "book.pdf" 10 true (Some "urls.txt") "Book" None None)
             (Some [Demo.missing_url +:+ Py.nl; "  " +:+ Py.nl;
                    "https://docs.example.com/nav"])
             "2024-01-01 00:00:00"))
             [Demo.missing_url +:+ Py.nl; "  " +:+ Py.nl; "https://docs.example.com/nav"]);
      try reflexivity.
    intros u Hu. vm_compute in Hu.
    repeat (apply elem_of_cons in Hu as [->|Hu]; [reflexivity|]).
    by apply elem_of_nil in Hu.
  - apply (proj1 (proj2 (proj2 (@main_exits_without_pages Demo.site
             (CliArgs Demo.home_url "book.pdf" 0 false None "Book" None None) None
             "2024-01-01 00:00:00"))));
      [reflexivity|vm_compute; discriminate].
Defined.

(** ** Nothing that is linked is lost *)

Section Discovery.
Context `{Library}.
Variables (base_netloc scheme_and_netloc : string).
Variable allowed_path_prefix : option string.

Lemma consider_link_keeps url st raw st' :
  consider_link base_netloc scheme_and_netloc url st raw = Ok st' ->
  visited st' = visited st /\ pages st' = pages st /\
  (forall h, h ∈ to_visit st -> h ∈ to_visit st') /\
  (forall href,
     normalize_link url raw = Ok (Some href) ->
     crawlable base_netloc scheme_and_netloc href = true ->
     href ∈ visited st \/ href ∈ to_visit st').
Proof.
  intros Hlink. pose proof Hlink as Hcases.
  apply consider_link_cases in Hcases as [->|(href0 & -> & _)].
  - repeat split; try done. intros href Hnorm Hc.
    apply crawlable_parts in Hc as (Ht & Hs & Hm & Hp).
    unfold consider_link in Hlink. rewrite Hnorm, Ht, Hs, Hm, Hp in Hlink.
    simpl in Hlink. rewrite andb_true_r in Hlink.
    destruct (bool_decide (href ∈ visited st)) eqn:Hv.
    { left. by apply bool_decide_eq_true in Hv. }
    destruct (bool_decide (href ∈ to_visit st)) eqn:Hq.
    { right. by apply bool_decide_eq_true in Hq. }
    simpl in Hlink. injection Hlink as Hlink.
    apply (f_equal (fun s => length (to_visit s))) in Hlink. simpl in Hlink.
    rewrite length_app in Hlink. simpl in Hlink. lia.
  - repeat split; try done.
    + intros h Hh. simpl. apply elem_of_app. by left.
    + intros href Hnorm Hc.
      apply crawlable_parts in Hc as (Ht & Hs & Hm & Hp).
      unfold consider_link in Hlink. rewrite Hnorm, Ht, Hs, Hm, Hp in Hlink.
      simpl in Hlink. rewrite andb_true_r in Hlink.
      destruct (bool_decide (href ∈ visited st)) eqn:Hv.
      { left. by apply bool_decide_eq_true in Hv. }
      destruct (bool_decide (href ∈ to_visit st)) eqn:Hq.
      { right. simpl. apply elem_of_app. left. by apply bool_decide_eq_true in Hq. }
      simpl in Hlink. injection Hlink as Hlink.
      apply app_inv_head in Hlink. injection Hlink as ->.
      right. simpl. apply elem_of_app. right. by left.
Qed.

Lemma discover_links_keeps url hrefs st st' :
  discover_links base_netloc scheme_and_netloc url hrefs st = Ok st' ->
  visited st' = visited st /\ pages st' = pages st /\
  (forall h, h ∈ to_visit st -> h ∈ to_visit st') /\
  (forall raw href,
     raw ∈ hrefs ->
     normalize_link url raw = Ok (Some href) ->
     crawlable base_netloc scheme_and_netloc href = true ->
     href ∈ visited st \/ href ∈ to_visit st').
Proof.
  revert st. induction hrefs as [|raw0 hrefs IH]; intros st; simpl.
  - intros [= <-]. repeat split; try done. by intros raw href ?%elem_of_nil.
  - destruct (consider_link _ _ url st raw0) as [st1|] eqn:Hlink; [|done].
    intros (Hv & Hp & Hq & Hall)%IH.
    apply consider_link_keeps in Hlink as (Hv1 & Hp1 & Hq1 & Hone).
    split; [congruence|]. split; [congruence|]. split; [auto|].
    intros raw href [->|Hraw]%elem_of_cons Hnorm Hc.
    + destruct (Hone href Hnorm Hc); auto.
    + rewrite <-Hv1. eauto.
Qed.

Lemma process_page_anchors url text st :
  process_page base_netloc scheme_and_netloc url text st
  = match page_record url text with
    | Some v =>
        after_sleep
          (discover_links base_netloc scheme_and_netloc url (page_anchors text)
                          (visited_add url (pages_set url v st)))
    | None => Ok (visited_add url st)
    end.
Proof.
  unfold process_page, page_record, page_anchors.
  by destruct (extract_main_html (BeautifulSoup text)).
Qed.

Lemma crawl_body_closure st st' :
  NoDup (to_visit st) ->
  closure_inv base_netloc scheme_and_netloc st ->
  crawl_body base_netloc scheme_and_netloc allowed_path_prefix st = Ok st' ->
  closure_inv base_netloc scheme_and_netloc st'.
Proof.
  intros Hnd Hinv Hbody.
  assert (forall s url rest,
            to_visit st = url :: rest ->
            pages s = pages st ->
            (forall h, h ∈ visited st -> h ∈ visited s) ->
            (forall h, h ∈ rest -> h ∈ to_visit s) ->
            url ∈ visited s ->
            closure_inv base_netloc scheme_and_netloc s) as Hquiet.
  { intros s url rest Hq Hp Hv Hr Hurl u text raw href Hu Hget Hraw Hnorm Hc.
    rewrite Hp in Hu.
    destruct (Hinv u text raw href Hu Hget Hraw Hnorm Hc) as [Hin|Hin]; [auto|].
    rewrite Hq in Hin. apply elem_of_cons in Hin as [->|Hin]; auto. }
  unfold crawl_body in Hbody.
  destruct (to_visit st) as [|url rest] eqn:Hq; [done|]. cbn [visited] in Hbody.
  case_bool_decide as Hv.
  { injection Hbody as <-. by apply (Hquiet _ url rest). }
  destruct (negb (is_same_domain base_netloc url)).
  { injection Hbody as <-. apply (Hquiet _ url rest); simpl; try done; set_solver. }
  destruct (_ && _).
  { injection Hbody as <-. apply (Hquiet _ url rest); simpl; try done; set_solver. }
  destruct (SESSION_get url) as [|status_code text] eqn:Hget.
  { injection Hbody as <-. apply (Hquiet _ url rest); simpl; try done; set_solver. }
  destruct (status_code =? 200)%Z eqn:Hstatus; simpl in Hbody.
  - apply Z.eqb_eq in Hstatus as ->. rewrite process_page_anchors in Hbody.
    destruct (page_record url text) as [v|].
    + apply after_sleep_Ok, discover_links_keeps in Hbody
        as (Hv' & Hp' & Hq' & Hall).
      simpl in Hv', Hp', Hq', Hall.
      intros u text' raw href Hu Hget' Hraw Hnorm Hc. rewrite Hv'.
      rewrite Hp' in Hu. apply keys_od_set_elem in Hu as [->|Hu].
      * rewrite Hget in Hget'. injection Hget' as <-.
        destruct (Hall raw href Hraw Hnorm Hc); auto.
      * destruct (Hinv u text' raw href Hu Hget' Hraw Hnorm Hc) as [Hin|Hin].
        { left. apply elem_of_union. by right. }
        rewrite Hq in Hin. apply elem_of_cons in Hin as [->|Hin]; [|auto].
        left. apply elem_of_union. left. by apply elem_of_singleton.
    + injection Hbody as <-. apply (Hquiet _ url rest); simpl; try done; set_solver.
  - injection Hbody as <-. apply (Hquiet _ url rest); simpl; try done; set_solver.
Qed.

Lemma crawl_body_visited st st' :
  visited_inv base_netloc allowed_path_prefix st ->
  crawl_body base_netloc scheme_and_netloc allowed_path_prefix st = Ok st' ->
  visited_inv base_netloc allowed_path_prefix st'.
Proof.
  intros Hinv Hbody.
  assert (forall s url,
            (forall h, h ∈ visited s -> h = url \/ h ∈ visited st) ->
            (forall h, h ∈ requests st -> h ∈ requests s) ->
            (url ∈ visited s ->
             url ∈ requests s \/ is_same_domain base_netloc url = false
             \/ within_prefix allowed_path_prefix url = false) ->
            visited_inv base_netloc allowed_path_prefix s) as Hstep.
  { intros s url Hv Hr Hurl u Hu. destruct (decide (u = url)) as [->|Hne]; [auto|].
    destruct (Hv u Hu) as [->|Hin]; [done|].
    destruct (Hinv u Hin) as [Hreq|Hrej]; auto. }
  unfold crawl_body in Hbody.
  destruct (to_visit st) as [|url rest] eqn:Hq; [done|]. cbn [visited] in Hbody.
  case_bool_decide as Hv.
  { injection Hbody as <-. apply (Hstep _ url); simpl; auto. }
  destruct (is_same_domain base_netloc url) eqn:Hsame; simpl in Hbody.
  2:{ injection Hbody as <-. apply (Hstep _ url); simpl; auto. set_solver. }
  destruct (_ && _) eqn:Hprefix.
  { injection Hbody as <-. apply (Hstep _ url); simpl; auto; [set_solver|].
    intros _. right. right. unfold within_prefix. by rewrite Hprefix. }
  assert (forall s,
            (forall h, h ∈ visited s -> h = url \/ h ∈ visited st) ->
            (forall h, h ∈ (requests st ++ [url])%list -> h ∈ requests s) ->
            visited_inv base_netloc allowed_path_prefix s) as Hfetch.
  { intros s Hvs Hrs. apply (Hstep _ url); auto.
    - intros h Hh. apply Hrs, elem_of_app. by left.
    - intros _. left. apply Hrs, elem_of_app. right. by left. }
  destruct (SESSION_get url) as [|status_code text] eqn:Hget.
  { injection Hbody as <-. apply Hfetch; simpl; auto. set_solver. }
  destruct (status_code =? 200)%Z eqn:Hstatus; simpl in Hbody.
  - rewrite process_page_anchors in Hbody. destruct (page_record url text) as [v|].
    + apply after_sleep_Ok, discover_links_crawlable in Hbody
        as (new & -> & _). simpl.
      apply Hfetch; simpl; auto. set_solver.
    + injection Hbody as <-. apply Hfetch; simpl; auto. set_solver.
  - injection Hbody as <-. apply Hfetch; simpl; auto. set_solver.
Qed.

End Discovery.

Section Exploration.
Context `{Library}.
Variables (start_url : string) (max_pages : Z) (allowed_path_prefix : option string).

Local Abbreviation reach := (reachable start_url max_pages allowed_path_prefix).

Lemma reachable_closure_inv scheme netloc st :
  urlparse start_url = Some (scheme, netloc) -> reach st ->
  closure_inv netloc (scheme +:+ "://" +:+ netloc) st.
Proof.
  intros Hparse Hst. induction Hst as [|scheme' netloc' st st' Hst IH Hparse' _ Hbody].
  - by intros u text raw href ?%elem_of_nil.
  - rewrite Hparse in Hparse'. injection Hparse' as <- <-.
    eapply crawl_body_closure; [|done|done].
    apply (reachable_frontier_inv _ _ _ st Hst).
Qed.

Lemma reachable_visited_inv scheme netloc st :
  urlparse start_url = Some (scheme, netloc) -> reach st ->
  visited_inv netloc allowed_path_prefix st.
Proof.
  intros Hparse. induction 1 as [|scheme' netloc' st st' _ IH Hparse' _ Hbody].
  - intros u Hu. cbn [crawl_init visited] in Hu. by apply not_elem_of_empty in Hu.
  - rewrite Hparse in Hparse'. injection Hparse' as <- <-.
    by eapply crawl_body_visited.
Qed.

End Exploration.

(** X19: nothing that is linked is lost.  When the crawl returns with an
    empty frontier, every link of a recorded page that normalizes to a
    non-empty, same-site, non-media URL under [scheme://netloc] has been
    visited; and if that URL lies within the allowed prefix and answers
    200, its page is in the result. *)
Theorem crawl_follows_every_link `{Library} (start_url : string) (max_pages : Z)
    (allowed_path_prefix : option string) (scheme netloc : string)
    (st : crawl_state) (u text raw href : string) :
  urlparse start_url = Some (scheme, netloc) ->
  crawl_run start_url max_pages allowed_path_prefix = Some (Ok st) ->
  to_visit st = [] ->
  u ∈ keys (pages st) ->
  SESSION_get u = Response 200 text ->
  raw ∈ page_anchors text ->
  normalize_link u raw = Ok (Some href) ->
  crawlable netloc (scheme +:+ "://" +:+ netloc) href = true ->
  href ∈ visited st /\
  (within_prefix allowed_path_prefix href = true -> fetched_ok href = true ->
   href ∈ keys (pages st)).
Proof.
  intros Hparse [Hst _]%crawl_run_end Hempty Hu Hget Hraw Hnorm Hc.
  assert (href ∈ visited st) as Hv.
  { destruct (reachable_closure_inv _ _ _ _ _ st Hparse Hst u text raw href)
      as [Hin|Hin]; try done.
    rewrite Hempty in Hin. by apply elem_of_nil in Hin. }
  split; [done|]. intros Hpre Hok.
  apply (log_inv_keys st href (reachable_log_inv _ _ _ st Hst)). split; [|done].
  destruct (reachable_visited_inv _ _ _ _ _ st Hparse Hst href Hv)
    as [Hreq|[Hoff|Hout]]; [done| |congruence].
  apply crawlable_parts in Hc as (_ & Hsame & _). congruence.
Qed.

Lemma crawl_follows_every_link_witness :
  Demo.guide_url ∈ visited Demo.final /\
  (within_prefix None Demo.guide_url = true ->
   @fetched_ok Demo.site Demo.guide_url = true ->
   Demo.guide_url ∈ keys (pages Demo.final)).
Proof.
  apply (@crawl_follows_every_link Demo.site Demo.home_url 10 None
           "https" "docs.example.com" Demo.final Demo.home_url
           (Demo.render Demo.home) "/guide" Demo.guide_url).
  - reflexivity.
  - vm_compute. reflexivity.
  - vm_compute. reflexivity.
  - vm_compute. apply list_elem_of_here.
  - reflexivity.
  - vm_compute. apply list_elem_of_further, list_elem_of_here.
  - reflexivity.
  - reflexivity.
Defined.

(** X20: the frontier is a queue.  A turn of the loop removes the head of
    the frontier, keeps the rest in order and appends the newly found
    links behind it: each of them once, none already visited or queued,
    all of them acceptable links; a page that was not fetched with status
    200 adds none. *)
Theorem frontier_is_a_queue `{Library} (start_url : string) (max_pages : Z)
    (allowed_path_prefix : option string) (base_netloc scheme_and_netloc : string)
    (st st' : crawl_state) (url : string) (rest : list string) :
  reachable start_url max_pages allowed_path_prefix st ->
  to_visit st = url :: rest ->
  crawl_body base_netloc scheme_and_netloc allowed_path_prefix st = Ok st' ->
  exists new,
    to_visit st' = (rest ++ new)%list /\ NoDup new /\
    (forall h, h ∈ new ->
       (h ∉ visited st') /\ (h ∉ rest) /\
       crawlable base_netloc scheme_and_netloc h = true) /\
    (fetched_ok url = false -> new = []).
Proof.
  intros Hst Hq Hbody.
  pose proof (crawl_body_effects _ _ _ _ _ Hbody)
    as (url0 & rest0 & new0 & Hq0 & Hto & Hnew0 & _).
  rewrite Hq in Hq0. injection Hq0 as <- <-.
  assert (forall h, h ∈ rest -> h ∉ {[url]} ∪ visited st) as Hrest.
  { destruct (reachable_frontier_inv _ _ _ st Hst) as [Hnd Hdis].
    rewrite Hq in Hnd, Hdis. apply NoDup_cons in Hnd as [Hurl _].
    intros h Hh. rewrite elem_of_union, elem_of_singleton.
    intros [->|Hv]; [done|]. eapply Hdis; [|done]. by right. }
  apply crawl_body_outcome in Hbody
    as [url' rest' Hq' _ ->|url' rest' Hq' _ ->|url' rest' Hq' _ _ ->
       |url' rest' v new Hq' _ Hok -> Hnd Hfresh];
    rewrite Hq in Hq'; injection Hq' as <- <-; simpl in Hto.
  1-3: exists []; rewrite app_nil_r; split; [done|]; split; [constructor|];
       split; [by intros h ?%elem_of_nil|done].
  apply app_inv_head in Hto as <-. exists new. split; [done|]. split; [done|].
  split; [|congruence].
  intros h Hh. destruct (Hfresh h Hh) as (Hv & Hr & _). simpl. auto.
Qed.

Lemma frontier_is_a_queue_witness :
  exists new,
    to_visit Demo.after_home = ([] ++ new)%list /\ NoDup new /\
    (forall h, h ∈ new ->
       (h ∉ visited Demo.after_home) /\ (h ∉ []) /\
       @crawlable Demo.site "docs.example.com" "https://docs.example.com" h = true) /\
    (@fetched_ok Demo.site Demo.home_url = false -> new = []).
Proof.
  apply (@frontier_is_a_queue Demo.site Demo.home_url 10 None
           "docs.example.com" "https://docs.example.com"
           (crawl_init Demo.home_url) Demo.after_home Demo.home_url []).
  - apply reach_init.
  - reflexivity.
  - vm_compute. reflexivity.
Defined.

(** ** Whitespace *)

Lemma lstrip_clean_front s : clean_front (Py.lstrip s) = true.
Proof.
  induction s as [|c s IH]; simpl; [done|].
  destruct (Py.is_space c) eqn:Hc; [done|]. simpl. by rewrite Hc.
Qed.

Lemma lstrip_id s : clean_front s = true -> Py.lstrip s = s.
Proof. destruct s as [|c s]; simpl; [done|]. by intros ->%negb_true_iff. Qed.

Lemma lstrip_app a b :
  Py.lstrip (a +:+ b)
  = if Py.truthy (Py.lstrip a) then Py.lstrip a +:+ b else Py.lstrip b.
Proof.
  induction a as [|c a IH]; [done|]. rewrite append_cons. simpl.
  destruct (Py.is_space c); [done|]. by rewrite append_cons.
Qed.

Lemma truthy_rev s : Py.truthy (String.rev s) = Py.truthy s.
Proof.
  destruct s as [|c s]; [done|]. rewrite rev_cons.
  by destruct (String.rev s).
Qed.

Lemma rstrip_cons c s :
  Py.rstrip (String c s)
  = if Py.truthy (Py.rstrip s) then String c (Py.rstrip s)
    else if Py.is_space c then "" else String c "".
Proof.
  unfold Py.rstrip. rewrite rev_cons, lstrip_app, truthy_rev.
  destruct (Py.truthy (Py.lstrip (String.rev s))) eqn:Ht.
  - by rewrite rev_append.
  - simpl. destruct (Py.is_space c); [done|]. by rewrite rev_cons.
Qed.

Lemma rstrip_clean_front s :
  clean_front s = true -> clean_front (Py.rstrip s) = true.
Proof.
  destruct s as [|c s]; [done|]. simpl. intros Hc. rewrite rstrip_cons.
  destruct (Py.truthy (Py.rstrip s)); [done|].
  apply negb_true_iff in Hc. by rewrite Hc; simpl; rewrite Hc.
Qed.

Lemma strip_strip s : Py.strip (Py.strip s) = Py.strip s.
Proof.
  unfold Py.strip.
  rewrite (lstrip_id (Py.rstrip (Py.lstrip s)))
    by apply rstrip_clean_front, lstrip_clean_front.
  unfold Py.rstrip. rewrite rev_involutive.
  by rewrite (lstrip_id _ (lstrip_clean_front _)).
Qed.

Lemma fragment_free_lstrip s : fragment_free s = true -> fragment_free (Py.lstrip s) = true.
Proof.
  induction s as [|c s IH]; simpl; [done|]. intros [Hc Hs]%andb_true_iff.
  destruct (Py.is_space c); [auto|]. simpl. by rewrite Hc, Hs.
Qed.

Lemma fragment_free_rstrip s : fragment_free s = true -> fragment_free (Py.rstrip s) = true.
Proof.
  induction s as [|c s IH]; [done|]. simpl. intros [Hc Hs]%andb_true_iff.
  rewrite rstrip_cons. destruct (Py.truthy (Py.rstrip s)).
  - simpl. by rewrite Hc, IH.
  - destruct (Py.is_space c); [done|]. simpl. by rewrite Hc.
Qed.

Lemma fragment_free_before_hash s : fragment_free (Py.before_hash s) = true.
Proof.
  induction s as [|c s IH]; simpl; [done|].
  destruct (Ascii.eqb c "#") eqn:Hc; [done|]. simpl. by rewrite Hc.
Qed.

(** X21: whatever [normalize_link] resolves is a reference without
    fragment and without surrounding whitespace that starts neither with
    [mailto:] nor with [tel:]; and normalizing that reference again gives
    the same URL. *)
Theorem normalize_link_resolves_clean_reference `{Library} (base href u : string) :
  normalize_link base href = Ok (Some u) ->
  exists r,
    r = Py.strip (Py.before_hash href) /\
    urljoin base r = Some u /\
    fragment_free r = true /\ Py.strip r = r /\
    Py.startswith r "mailto:" = false /\ Py.startswith r "tel:" = false /\
    (Py.truthy r = true -> normalize_link base r = Ok (Some u)).
Proof.
  unfold normalize_link at 1. destruct (Py.truthy href); [|done]. simpl.
  set (r := Py.strip (Py.before_hash href)).
  destruct (Py.startswith r "mailto:") eqn:Hm; [done|].
  destruct (Py.startswith r "tel:") eqn:Ht; [done|]. simpl.
  destruct (urljoin base r) as [u'|] eqn:Hjoin; [|done]. intros [= ->].
  assert (fragment_free r = true) as Hfree.
  { apply fragment_free_rstrip, fragment_free_lstrip, fragment_free_before_hash. }
  assert (Py.strip r = r) as Hstrip by apply strip_strip.
  exists r. repeat split; try done.
  intros Hr. unfold normalize_link. rewrite Hr. simpl.
  by rewrite before_hash_fragment_free, Hstrip, Hm, Ht, Hjoin.
Qed.

Lemma normalize_link_resolves_clean_reference_witness :
  exists r,
    r = Py.strip (Py.before_hash "  /missing#top ") /\
    @urljoin Demo.site Demo.home_url r = Some Demo.missing_url /\
    fragment_free r = true /\ Py.strip r = r /\
    Py.startswith r "mailto:" = false /\ Py.startswith r "tel:" = false /\
    (Py.truthy r = true ->
     @normalize_link Demo.site Demo.home_url r = Ok (Some Demo.missing_url)).
Proof.
  apply (@normalize_link_resolves_clean_reference Demo.site Demo.home_url
           "  /missing#top " Demo.missing_url).
  reflexivity.
Defined.

(** X22: the URLs [main] reads from the list file are the lines of the
    file with surrounding whitespace removed, blank lines dropped, in the
    order of the file: each one is non-empty and has no whitespace at
    either end. *)
Theorem read_urls_are_trimmed (lines : list string) :
  read_urls lines `sublist_of` map Py.strip lines /\
  (forall u, u ∈ read_urls lines <->
     Py.truthy u = true /\ exists line, line ∈ lines /\ u = Py.strip line) /\
  (forall u, u ∈ read_urls lines -> Py.strip u = u /\ u <> "").
Proof.
  assert (forall u, u ∈ read_urls lines <->
            Py.truthy u = true /\ exists line, line ∈ lines /\ u = Py.strip line)
    as Hmem.
  { intros u. unfold read_urls. rewrite list_elem_of_In, filter_In, <-list_elem_of_In.
    rewrite list_elem_of_fmap. split.
    - intros [(line & -> & Hline) Ht]. eauto.
    - intros (Ht & line & Hline & ->). eauto. }
  split; [|split; [done|]].
  - unfold read_urls. induction (map Py.strip lines) as [|x l IH]; simpl; [done|].
    destruct (Py.truthy x); by constructor.
  - intros u (Ht & line & _ & ->)%Hmem. split; [apply strip_strip|].
    by destruct (Py.strip line).
Qed.

Lemma read_urls_are_trimmed_witness :
  Py.strip Demo.missing_url = Demo.missing_url /\ Demo.missing_url <> "".
Proof.
  apply (proj2 (proj2 (read_urls_are_trimmed
           [Demo.missing_url +:+ Py.nl; "  " +:+ Py.nl; "https://docs.example.com/nav"]))).
  vm_compute. apply list_elem_of_here.
Defined.

(** * The assembled document *)

Section Document.
Context `{Library}.

(** The document is the head and the title page, the table of contents,
    the chapter blocks joined by line feeds, and the closing tags; only
    the table and the blocks depend on the pages. *)
Lemma build_book_html_layout book_title author now :
  exists head, forall pages,
    build_book_html pages book_title author now
    = head +:+ toc_html pages +:+ String.concat Py.nl (chapters_html pages)
      +:+ "</body></html>".
Proof.
  exists ("<!doctype html><html><head><meta charset='utf-8'><title>" +:+ book_title
          +:+ "</title><style>" +:+ css +:+ "</style></head><body>"
          +:+ "<div class='title-page'><h1>" +:+ book_title +:+ "</h1>"
          +:+ (if Py.truthy_opt author
               then "<div class='author'>By " +:+ default "" author +:+ "</div>"
               else "")
          +:+ "<div class='meta'>Generated: " +:+ now
          +:+ "</div></div><div style='page-break-after: always;'></div>").
  intros pages. unfold build_book_html. by rewrite !append_assoc.
Qed.


(** The block of page [k] (counted from 0), and its line of the table of
    contents, as the assembler writes them. *)
Lemma chapters_html_lookup pages k url title html_content :
  pages !! k = Some (url, (title, html_content)) ->
  exists t,
    map toc_line (toc_entries pages) !! k
    = Some ("<li><a href=" +:+ Py.dq +:+ "#" +:+ ("chapter-" +:+ pretty (S k))
            +:+ Py.dq +:+ ">" +:+ t +:+ "</a></li>" +:+ Py.nl) /\
    chapters_html pages !! k
    = Some ("<section class=" +:+ Py.dq +:+ "chapter" +:+ Py.dq +:+ " id=" +:+ Py.dq
            +:+ ("chapter-" +:+ pretty (S k)) +:+ Py.dq +:+ ">" +:+ Py.nl
            +:+ "<h1>" +:+ t +:+ "</h1>" +:+ Py.nl
            +:+ "<div class=" +:+ Py.dq +:+ "source-url" +:+ Py.dq
            +:+ ">Source: <a href=" +:+ Py.dq +:+ url +:+ Py.dq +:+ ">" +:+ url
            +:+ "</a></div>" +:+ Py.nl
            +:+ str (ensure_heading_ids (S k) (BeautifulSoup html_content))
            +:+ "</section>" +:+ Py.nl
            +:+ "<div style=" +:+ Py.dq +:+ "page-break-after: always;" +:+ Py.dq
            +:+ "></div>").
Proof.
  intros Hk.
  exists (chapter_title_text (build_chapter (S k) (url, (title, html_content)))).
  unfold toc_entries, chapters_html.
  rewrite !list_lookup_fmap, chapters_lookup, Hk. done.
Qed.



End Document.

Lemma synth_id_inj i j h1 h2 :
  synth_id i h1 = synth_id j h2 <->
  i = j /\ safe_id (get_text false h1) = safe_id (get_text false h2).
Proof.
  split.
  - intros Heq. pose proof (synth_id_page_inj _ _ _ _ Heq) as ->. split; [done|].
    unfold synth_id in Heq.
    by do 3 apply (inj (String.app _)) in Heq.
  - intros [-> Heq]. unfold synth_id. by rewrite Heq.
Qed.

(** ** Heading identifiers *)

(** C1, as stated, fails: headings that arrive with the same id keep it
    (two pages carrying [<h2 id="intro">]), and two headings of one page
    with the same text receive the same synthesized id. *)
Lemma C1_duplicate_heading_ids :
  heading_ids (@chapters Demo.site Demo.clash_pages)
  = [Some "intro"; Some "intro"; Some "p3-Overview"; Some "p3-Overview"].
Proof. vm_compute. reflexivity. Qed.

(** C1 (amended): in the assembled document, the section of chapter [k]
    holds the content of page [k] with its headings passed through the id
    pass, in their order: a heading that arrived with a non-empty id keeps
    it, any other heading receives [p<k>-<slug>], so every heading of page
    content carries a non-empty id.  Two headings that arrived without an
    id share an id exactly when they are on the same page and their slugs
    are equal; on different pages they never do.  Nothing more is
    promised: not for ids that were already present, and not for two
    headings of one page with equal slugs. *)
Theorem heading_ids_distinct_across_pages `{Library}
    (pages : list (string * (string * string))) (book_title : string)
    (author : option string) (now : string) :
  (exists head,
     build_book_html pages book_title author now
     = head +:+ toc_html pages +:+ String.concat Py.nl (chapters_html pages)
       +:+ "</body></html>") /\
  (forall k url title html_content,
     pages !! k = Some (url, (title, html_content)) ->
     (exists t,
        chapters_html pages !! k
        = Some ("<section class=" +:+ Py.dq +:+ "chapter" +:+ Py.dq +:+ " id=" +:+ Py.dq
                +:+ ("chapter-" +:+ pretty (S k)) +:+ Py.dq +:+ ">" +:+ Py.nl
                +:+ "<h1>" +:+ t +:+ "</h1>" +:+ Py.nl
                +:+ "<div class=" +:+ Py.dq +:+ "source-url" +:+ Py.dq
                +:+ ">Source: <a href=" +:+ Py.dq +:+ url +:+ Py.dq +:+ ">" +:+ url
                +:+ "</a></div>" +:+ Py.nl
                +:+ str (ensure_heading_ids (S k) (BeautifulSoup html_content))
                +:+ "</section>" +:+ Py.nl
                +:+ "<div style=" +:+ Py.dq +:+ "page-break-after: always;" +:+ Py.dq
                +:+ "></div>")) /\
     headings (ensure_heading_ids (S k) (BeautifulSoup html_content))
     = map (ensure_id (S k)) (headings (BeautifulSoup html_content)) /\
     (forall h, h ∈ headings (BeautifulSoup html_content) ->
        Py.truthy_opt (get "id" (ensure_id (S k) h)) = true /\
        (lacks_id h = false -> get "id" (ensure_id (S k) h) = get "id" h) /\
        (lacks_id h = true ->
         get "id" (ensure_id (S k) h) = Some (synth_id (S k) h)))) /\
  (forall k1 k2 p1 p2 h1 h2,
     pages !! k1 = Some p1 -> pages !! k2 = Some p2 ->
     h1 ∈ headings (BeautifulSoup (snd (snd p1))) -> lacks_id h1 = true ->
     h2 ∈ headings (BeautifulSoup (snd (snd p2))) -> lacks_id h2 = true ->
     (get "id" (ensure_id (S k1) h1) = get "id" (ensure_id (S k2) h2)
      <-> k1 = k2 /\ safe_id (get_text false h1) = safe_id (get_text false h2))).
Proof.
  split; [|split].
  - destruct (build_book_html_layout book_title author now) as [head Hhead]. eauto.
  - intros k url title html_content Hk. split; [|split].
    + destruct (chapters_html_lookup pages k url title html_content Hk)
        as (t & _ & Hblock). eauto.
    + apply headings_ensure_heading_ids.
    + intros h Hh%headings_are_headings. rewrite get_id_ensure_id by done.
      unfold lacks_id. destruct (Py.truthy_opt (get "id" h)) eqn:Hid; simpl; done.
  - intros k1 k2 p1 p2 h1 h2 _ _ Hh1%headings_are_headings Hl1
           Hh2%headings_are_headings Hl2.
    rewrite !get_id_ensure_id, Hl1, Hl2 by done.
    split.
    + intros Heq. apply (inj Some), synth_id_inj in Heq as [Hk Hslug].
      split; [lia|done].
    + intros [-> Hslug]. f_equal. by apply synth_id_inj.
Qed.

Lemma heading_ids_distinct_across_pages_witness :
  get "id" (ensure_id 1 (Tag "h1" [] [NavigableString "Overview"]))
  <> get "id" (ensure_id 2 (Tag "h2" [] [NavigableString "Overview"])).
Proof.
  intros Heq.
  apply (proj2 (proj2 (@heading_ids_distinct_across_pages Demo.site Demo.overview_pages
                         "Book" None "2024-01-01 00:00:00"))
           0%nat 1%nat
           (Demo.home_url, ("Home", Demo.render (Demo.document [Demo.home_main])))
           (Demo.guide_url, ("Guide", Demo.render (Demo.document [Demo.guide_main]))))
    in Heq.
  - destruct Heq as [Heq _]. discriminate Heq.
  - reflexivity.
  - reflexivity.
  - vm_compute. apply list_elem_of_here.
  - reflexivity.
  - vm_compute. apply list_elem_of_here.
  - reflexivity.
Defined.

(** ** Table of contents and chapters *)




(** ** Chapter order *)



(** ** Idempotent normalization *)








(** ** The origin of enqueued links *)

(** C10, as stated, fails: the prefix test is not stronger than the
    same-site check.  [https://docs.example.com.evil.com/x] begins with
    [https://docs.example.com] and is not same-site; it is kept off the
    frontier by the same-site check alone. *)
Lemma C10_prefix_is_not_stronger :
  @urlparse Demo.site Demo.home_url = Some ("https", "docs.example.com") /\
  Py.startswith "https://docs.example.com.evil.com/x" "https://docs.example.com" = true /\
  @is_same_domain Demo.site "docs.example.com" "https://docs.example.com.evil.com/x"
  = false /\
  @consider_link Demo.site "docs.example.com" "https://docs.example.com"
     Demo.home_url (crawl_init Demo.home_url) "https://docs.example.com.evil.com/x"
  = Ok (crawl_init Demo.home_url).
Proof. vm_compute. done. Qed.

(** C10 (amended): every URL of the frontier, and every URL of the result,
    is the start URL or begins with the start URL's [scheme://netloc] and
    passes the same-site check; a link is enqueued only if it passes both
    tests, and a link that fails either of them is never enqueued: a
    same-site link under another scheme is read and left out (the link
    [http://docs.example.com/old] of the site above). *)
Theorem enqueued_urls_share_origin `{Library} (start_url : string) (max_pages : Z)
    (allowed_path_prefix : option string) (scheme netloc : string) :
  urlparse start_url = Some (scheme, netloc) ->
  (forall st, reachable start_url max_pages allowed_path_prefix st ->
     (forall u, u ∈ to_visit st ->
        u = start_url \/
        (Py.startswith u (scheme +:+ "://" +:+ netloc) = true /\
         is_same_domain netloc u = true)) /\
     (forall u, u ∈ keys (pages st) ->
        u = start_url \/
        (Py.startswith u (scheme +:+ "://" +:+ netloc) = true /\
         is_same_domain netloc u = true))) /\
  (forall url st raw st',
     consider_link netloc (scheme +:+ "://" +:+ netloc) url st raw = Ok st' ->
     st' = st \/
     exists href,
       st' = to_visit_append href st /\
       is_same_domain netloc href = true /\
       Py.startswith href (scheme +:+ "://" +:+ netloc) = true) /\
  (forall url st raw href,
     normalize_link url raw = Ok (Some href) ->
     Py.startswith href (scheme +:+ "://" +:+ netloc) = false
     \/ is_same_domain netloc href = false ->
     consider_link netloc (scheme +:+ "://" +:+ netloc) url st raw = Ok st) /\
  (forall pgs u,
     crawl_docs start_url max_pages allowed_path_prefix = Some (Ok pgs) ->
     u ∈ keys pgs ->
     u = start_url \/
     (Py.startswith u (scheme +:+ "://" +:+ netloc) = true /\
      is_same_domain netloc u = true)).
Proof.
  intros Hparse.
  assert (forall st, reachable start_url max_pages allowed_path_prefix st ->
            (forall u, u ∈ to_visit st ->
               u = start_url \/
               (Py.startswith u (scheme +:+ "://" +:+ netloc) = true /\
                is_same_domain netloc u = true)) /\
            (forall u, u ∈ keys (pages st) ->
               u = start_url \/
               (Py.startswith u (scheme +:+ "://" +:+ netloc) = true /\
                is_same_domain netloc u = true))) as Hinv.
  { intros st Hst.
    destruct (reachable_effects_inv _ _ _ _ _ st Hparse Hst) as [Hq Hr].
    pose proof (reachable_log_inv _ _ _ st Hst) as Hlog.
    split.
    - intros u [->|(_ & Hsame & _ & Hpre)%crawlable_parts]%Hq; auto.
    - intros u [Hu _]%(log_inv_keys st u Hlog).
      destruct (Hr u Hu) as ([->|(_ & Hsame & _ & Hpre)%crawlable_parts] & _ & _); auto. }
  split; [done|]. split; [|split].
  - intros url st raw st' Hlink.
    apply consider_link_cases in Hlink as [->|(href & -> & _ & _ & Hp & Hs)]; eauto.
  - intros url st raw href Hnorm [Hpre|Hsame]; unfold consider_link; rewrite Hnorm.
    + rewrite Hpre, !andb_false_r. by repeat case_match.
    + rewrite Hsame. simpl. by destruct (negb (Py.truthy href)).
  - intros pgs u (st & Hst & _ & <-)%crawl_docs_pages Hu. by apply (Hinv st Hst).
Qed.

Lemma enqueued_urls_share_origin_witness :
  @is_same_domain Demo.site "docs.example.com" "http://docs.example.com/old" = true
  /\ @consider_link Demo.site "docs.example.com" "https://docs.example.com"
       Demo.home_url (crawl_init Demo.home_url) "http://docs.example.com/old"
     = Ok (crawl_init Demo.home_url).
Proof.
  split; [reflexivity|].
  apply (proj1 (proj2 (proj2
           (@enqueued_urls_share_origin Demo.site Demo.home_url 10 None
              "https" "docs.example.com" eq_refl)))
           Demo.home_url (crawl_init Demo.home_url)
           "http://docs.example.com/old" "http://docs.example.com/old");
    [reflexivity|left; reflexivity].
Defined.
